(** * Anna KaRNNa: the data pipeline, training loop and sampler of the
      character-level RNN notebook, embedded in Rocq.

    The notebook [wk9/Anna KaRNNa Name Scoped.ipynb] is embedded cell by
    cell.  Python exceptions are an explicit error type, NumPy arrays are
    lists (two-dimensional ones carry their shape), Python's clamping slice
    semantics is written out, and floating-point numbers are idealised as
    exact rationals ([Qc]). *)

From Stdlib Require Import ZArith QArith Qcanon Ascii String.
From stdpp Require Import base numbers option list gmap strings sorting.

Open Scope nat_scope.

(** ** Python exceptions and the error monad *)

Inductive py_error : Type :=
  | ZeroDivisionError
  | ValueError
  | KeyError
  | IndexError
  | NameError.

Inductive result (A : Type) : Type :=
  | Ok (a : A)
  | Raise (e : py_error).
Arguments Ok {A} a.
Arguments Raise {A} e.

Global Instance result_ret : MRet result := fun A a => Ok a.
Global Instance result_bind : MBind result := fun A B k r =>
  match r with
  | Ok a => k a
  | Raise e => Raise e
  end.

(** ** Python and NumPy primitives *)

Module Py.

(** Normalisation of a slice bound against a sequence of length [len]:
    negative bounds count from the end, everything is clamped. *)
Definition clamp_index (len : nat) (k : Z) : nat :=
  if (k <? 0)%Z then Z.to_nat (Z.max 0 (k + Z.of_nat len))
  else Nat.min (Z.to_nat k) len.

(** [l[lo:hi]] *)
Definition slice {A : Type} (lo hi : Z) (l : list A) : list A :=
  let a := clamp_index (length l) lo in
  let b := clamp_index (length l) hi in
  take (b - a) (drop a l).

(** [l[:hi]] *)
Definition slice_to {A : Type} (hi : Z) (l : list A) : list A :=
  take (clamp_index (length l) hi) l.

(** [l[lo:]] *)
Definition slice_from {A : Type} (lo : Z) (l : list A) : list A :=
  drop (clamp_index (length l) lo) l.

(** [int(a / b)] on non-negative integers: true division followed by
    truncation, idealised as exact. *)
Definition int_div (a b : nat) : result nat :=
  if decide (b = 0) then Raise ZeroDivisionError else Ok (a / b).

(** [a % b] on non-negative integers. *)
Definition modulo (a b : nat) : result nat :=
  if decide (b = 0) then Raise ZeroDivisionError else Ok (a mod b).

(** [int(q)]: truncation toward zero. *)
Definition int (q : Qc) : Z :=
  Z.quot (Qnum (this q)) (Z.pos (Qden (this q))).

(** An integer operand of a float operation. *)
Definition Qc_of_nat (n : nat) : Qc := Qc_of_Z (Z.of_nat n).

End Py.

Module Np.

(** A two-dimensional array: its shape and its rows. *)
Record matrix (A : Type) : Type := Matrix {
  nrows : nat;
  ncols : nat;
  rows : list (list A)
}.
Arguments Matrix {A} _ _ _.
Arguments nrows {A} _.
Arguments ncols {A} _.
Arguments rows {A} _.

Definition shape {A : Type} (m : matrix A) : nat * nat := (nrows m, ncols m).

Definition wf {A : Type} (m : matrix A) : Prop :=
  length (rows m) = nrows m /\ Forall (fun r => length r = ncols m) (rows m).

(** [m[i, j]] *)
Definition at2 {A : Type} (m : matrix A) (i j : nat) : option A :=
  rows m !! i ≫= fun r => r !! j.

(** [np.split(ary, sections)] on a one-dimensional array: [sections]
    equal contiguous pieces [ary[i*each : (i+1)*each]], [ValueError] if
    the length is not a multiple of [sections]. *)
Definition chunks {A : Type} (each sections : nat) (ary : list A)
  : list (list A) :=
  map (fun i => take each (drop (i * each) ary)) (seq 0 sections).

Definition split {A : Type} (ary : list A) (sections : nat)
  : result (list (list A)) :=
  r ← Py.modulo (length ary) sections;
  if decide (r = 0) then Ok (chunks (length ary / sections) sections ary)
  else Raise ValueError.

(** [np.stack(arrays)] of one-dimensional arrays: they become the rows
    of a matrix; [ValueError] on an empty list or on unequal lengths. *)
Definition stack {A : Type} (arrays : list (list A)) : result (matrix A) :=
  match arrays with
  | [] => Raise ValueError
  | a :: _ =>
      if decide (Forall (fun r => length r = length a) arrays)
      then Ok (Matrix (length arrays) (length a) arrays)
      else Raise ValueError
  end.

(** [m[:, :hi]] *)
Definition cols_to {A : Type} (hi : Z) (m : matrix A) : matrix A :=
  Matrix (nrows m) (Py.clamp_index (ncols m) hi)
         (map (Py.slice_to hi) (rows m)).

(** [m[:, lo:]] *)
Definition cols_from {A : Type} (lo : Z) (m : matrix A) : matrix A :=
  Matrix (nrows m) (ncols m - Py.clamp_index (ncols m) lo)
         (map (Py.slice_from lo) (rows m)).

(** [m[:, lo:hi]] *)
Definition cols {A : Type} (lo hi : Z) (m : matrix A) : matrix A :=
  Matrix (nrows m)
         (Py.clamp_index (ncols m) hi - Py.clamp_index (ncols m) lo)
         (map (Py.slice lo hi) (rows m)).

End Np.

(** ** Cell 2: the vocabulary *)

Definition dict_get `{Countable K} {V : Type} (d : gmap K V) (k : K)
  : result V :=
  match d !! k with
  | Some v => Ok v
  | None => Raise KeyError
  end.

Section Vocabulary.
Context `{Countable Sym}.

Record vocabulary : Type := Vocabulary {
  vocab : gset Sym;
  vocab_to_int : gmap Sym nat;
  int_to_vocab : gmap nat Sym;
  chars : list nat
}.

(** [enumerate(s)] for a set [s]: the set's iteration order is whatever
    [elements] gives; it is the same order each time the unchanged set
    is iterated. *)
Definition enumerate_set (s : gset Sym) : list (nat * Sym) :=
  zip (seq 0 (length (elements s))) (elements s).

(** The dictionaries are built from pairs whose keys are pairwise
    distinct, so no pair overrides another. *)
Definition build_vocabulary (text : list Sym) : result vocabulary :=
  let vocab := list_to_set text : gset Sym in
  let vocab_to_int : gmap Sym nat :=
    list_to_map ((fun ic => (ic.2, ic.1)) <$> enumerate_set vocab) in
  let int_to_vocab : gmap nat Sym :=
    list_to_map (enumerate_set vocab) in
  chars ← mapM (dict_get vocab_to_int) text;
  Ok (Vocabulary vocab vocab_to_int int_to_vocab chars).

End Vocabulary.
Arguments vocabulary Sym {_ _}.

(** ** Cell 5: [split_data] *)

Section SplitData.
Context {A : Type}.

(** The function with the value of its one float product,
    [split_idx = int(n_batches*split_frac)], taken as given: what it does
    whatever that product comes to in double arithmetic.  The quotient
    [int(len(chars) / slice_size)] is exact for any length a list can
    have; a division by zero and the two NumPy calls can raise. *)
Definition split_data_at (split_idx : Z) (chars : list A)
    (batch_size num_steps : nat)
  : result (Np.matrix A * Np.matrix A * Np.matrix A * Np.matrix A) :=
  let slice_size := batch_size * num_steps in
  n_batches ← Py.int_div (length chars) slice_size;
  (* Drop the last few characters to make only full batches *)
  let x := Py.slice_to (Z.of_nat (n_batches * slice_size)) chars in
  let y := Py.slice 1 (Z.of_nat (n_batches * slice_size) + 1) chars in
  (* Split the data into batch_size slices, then stack them *)
  xs ← Np.split x batch_size;
  x ← Np.stack xs;
  ys ← Np.split y batch_size;
  y ← Np.stack ys;
  let k := (split_idx * Z.of_nat num_steps)%Z in
  Ok (Np.cols_to k x, Np.cols_to k y, Np.cols_from k x, Np.cols_from k y).

(** The function with [split_frac] a rational and the product
    [n_batches*split_frac] taken as exact.  The source multiplies in
    double arithmetic, where the product can fall just short of the
    exact one: 50 * 0.58 is 28.999999999999996, so the source splits at
    28 where this definition splits at 29.  [split_data_at] leaves the
    split index open.  A division by zero and the two NumPy calls can
    raise. *)
Definition split_data (chars : list A) (batch_size num_steps : nat)
    (split_frac : Qc)
  : result (Np.matrix A * Np.matrix A * Np.matrix A * Np.matrix A) :=
  let slice_size := batch_size * num_steps in
  n_batches ← Py.int_div (length chars) slice_size;
  (* Drop the last few characters to make only full batches *)
  let x := Py.slice_to (Z.of_nat (n_batches * slice_size)) chars in
  let y := Py.slice 1 (Z.of_nat (n_batches * slice_size) + 1) chars in
  (* Split the data into batch_size slices, then stack them *)
  xs ← Np.split x batch_size;
  x ← Np.stack xs;
  ys ← Np.split y batch_size;
  y ← Np.stack ys;
  let split_idx := Py.int (Py.Qc_of_nat n_batches * split_frac)%Qc in
  let k := (split_idx * Z.of_nat num_steps)%Z in
  Ok (Np.cols_to k x, Np.cols_to k y, Np.cols_from k x, Np.cols_from k y).

End SplitData.

(** ** Cell 9: the generator [get_batch] *)

Section GetBatch.
Context {A : Type}.

(** A generator object is suspended before its first statement
    ([Fresh]), inside the [for] loop with the rest of [range(n_batches)]
    still to come ([Looping]), or finished ([Exhausted]). *)
Inductive gen_state : Type :=
  | Fresh
  | Looping (todo : list nat)
  | Exhausted.

Record generator : Type := Generator {
  g_arrs : list (Np.matrix A);
  g_num_steps : nat;
  g_state : gen_state
}.

Definition get_batch (arrs : list (Np.matrix A)) (num_steps : nat)
  : generator :=
  Generator arrs num_steps Fresh.

(** [[x[:, b*num_steps: (b+1)*num_steps] for x in arrs]] *)
Definition window (arrs : list (Np.matrix A)) (num_steps b : nat)
  : list (Np.matrix A) :=
  map (Np.cols (Z.of_nat (b * num_steps)) (Z.of_nat ((b + 1) * num_steps)))
      arrs.

(** The statements before the loop: [arrs[0].shape] and [n_batches]. *)
Definition gen_prologue (g : generator) : result (list nat) :=
  match g_arrs g with
  | [] => Raise IndexError
  | a0 :: _ =>
      n_batches ← Py.int_div (Np.ncols a0) (g_num_steps g);
      Ok (seq 0 n_batches)
  end.

Definition gen_resume (g : generator) (todo : list nat)
  : option (list (Np.matrix A)) * generator :=
  match todo with
  | [] => (None, Generator (g_arrs g) (g_num_steps g) Exhausted)
  | b :: rest =>
      (Some (window (g_arrs g) (g_num_steps g) b),
       Generator (g_arrs g) (g_num_steps g) (Looping rest))
  end.

(** [next(g)]: [None] stands for [StopIteration]. *)
Definition gen_next (g : generator)
  : result (option (list (Np.matrix A)) * generator) :=
  match g_state g with
  | Fresh => todo ← gen_prologue g; Ok (gen_resume g todo)
  | Looping todo => Ok (gen_resume g todo)
  | Exhausted => Ok (None, g)
  end.

(** [list(g)], what a [for] loop over [g] sees. *)
Definition gen_drain (g : generator) : result (list (list (Np.matrix A))) :=
  match g_state g with
  | Fresh =>
      todo ← gen_prologue g;
      Ok (map (window (g_arrs g) (g_num_steps g)) todo)
  | Looping todo => Ok (map (window (g_arrs g) (g_num_steps g)) todo)
  | Exhausted => Ok []
  end.

(** [k] calls of [next], collecting what is yielded. *)
Fixpoint gen_take (k : nat) (g : generator)
  : result (list (list (Np.matrix A)) * generator) :=
  match k with
  | 0 => Ok ([], g)
  | S k' =>
      '(o, g') ← gen_next g;
      match o with
      | None => Ok ([], g')
      | Some w => '(ws, g'') ← gen_take k' g'; Ok (w :: ws, g'')
      end
  end.

End GetBatch.
Arguments generator : clear implicits.

(** ** NumPy numerics on one-dimensional float arrays

    Floats are idealised as exact rationals.  Arrays that the code
    mutates live in a store; an array value is a reference into it. *)

Definition loc : Type := nat.
Abbreviation heap := (gmap loc (list Qc)).

Definition heap_read (h : heap) (l : loc) : result (list Qc) :=
  match h !! l with
  | Some v => Ok v
  | None => Raise NameError
  end.

Definition heap_alloc (h : heap) (v : list Qc) : loc * heap :=
  let l := fresh (dom h) in (l, <[l:=v]> h).

Module NpNum.

(** An array object: the buffer it looks at and the number of its axes.
    A view shares its buffer with the array it was taken from. *)
Record ndarray : Type := Ndarray { nd_data : loc; nd_ndim : nat }.

(** [np.squeeze(a)] of an array of shape [(1, V)]: a view onto the same
    buffer with every axis of length 1 removed, so of shape [(V,)], and
    0-dimensional when [V = 1]. *)
Definition squeeze (a : loc) (V : nat) : ndarray :=
  Ndarray a (if decide (V = 1) then 0 else 1).

Definition sum (l : list Qc) : Qc := foldr Qcplus 0%Qc l.

(** [a[idx] = v] with an index array, on an array of [ndim] axes whose
    buffer holds [a]: in place; [IndexError] when the array is
    0-dimensional (it has no axis to index, even with an empty [idx]) or
    an index is out of bounds. *)
Definition set_items (ndim : nat) (idx : list nat) (v : Qc) (a : list Qc)
  : result (list Qc) :=
  if decide (ndim = 0) then Raise IndexError
  else if decide (Forall (fun i => i < length a) idx)
  then Ok (foldl (fun a i => <[i:=v]> a) a idx)
  else Raise IndexError.

Fixpoint cumsum_from (acc : Qc) (l : list Qc) : list Qc :=
  match l with
  | [] => []
  | x :: l' => (acc + x)%Qc :: cumsum_from (acc + x)%Qc l'
  end.

Definition cumsum (l : list Qc) : list Qc := cumsum_from 0%Qc l.

(** [cdf.searchsorted(u, side='right')] on a non-decreasing array: the
    number of entries that are [<= u]. *)
Definition searchsorted_right (cdf : list Qc) (u : Qc) : nat :=
  length (filter (fun x => (x <= u)%Qc) cdf).

(** [np.random.choice(a, 1, p=p)[0]]; [u] is the uniform variate in
    [[0, 1)] that the generator draws. *)
Definition random_choice (a : nat) (p : list Qc) (u : Qc) : result nat :=
  if decide (a = 0) then Raise ValueError
  else if decide (length p = a) then
    if decide (Forall (fun x => (0 <= x)%Qc) p) then
      if decide (sum p = 1%Qc) then
        let cdf := cumsum p in
        let cdf := map (fun x => (x / default 0 (last cdf))%Qc) cdf in
        Ok (searchsorted_right cdf u)
      else Raise ValueError
    else Raise ValueError
  else Raise ValueError.

End NpNum.

(** ** Cell 19: [pick_top_n] *)

Section PickTopN.
(** [np.argsort] *)
Variable argsort : list Qc -> list nat.

(** [preds] is the [(1, V)] array of the network's output; its buffer
    holds the [V] entries.  [np.argsort] of a 0-dimensional array is
    [[0]], as of a one-entry array. *)
Definition pick_top_n (preds : loc) (vocab_size top_n : nat) (u : Qc)
    (h : heap) : result (nat * heap) :=
  pv ← heap_read h preds;
  let p := NpNum.squeeze preds (length pv) in
  (* p[np.argsort(p)[:-top_n]] = 0 *)
  let idx := Py.slice_to (- Z.of_nat top_n) (argsort pv) in
  pv' ← NpNum.set_items (NpNum.nd_ndim p) idx 0%Qc pv;
  let h := <[NpNum.nd_data p:=pv']> h in
  (* p = p / np.sum(p): a new array, bound to the local name only *)
  pv ← heap_read h (NpNum.nd_data p);
  let '(p, h) := heap_alloc h (map (fun x => (x / NpNum.sum pv)%Qc) pv) in
  pv ← heap_read h p;
  c ← NpNum.random_choice vocab_size pv u;
  Ok (c, h).

End PickTopN.

(** [p[i]] where [i] is known to be in bounds. *)
Definition item (p : list Qc) (i : nat) : Qc := default 0%Qc (p !! i).

(** What [np.argsort] guarantees of its result: the indices of [p],
    ordered by non-decreasing value; ties may come in any order. *)
Definition is_argsort (p : list Qc) (idx : list nat) : Prop :=
  idx ≡ₚ seq 0 (length p) /\
  StronglySorted (fun i j => (item p i <= item p j)%Qc) idx.

(** A stable insertion sort on indices, one admissible [np.argsort]. *)
Fixpoint insert_index (p : list Qc) (i : nat) (l : list nat) : list nat :=
  match l with
  | [] => [i]
  | j :: l' =>
      if decide (item p i <= item p j)%Qc
      then i :: j :: l'
      else j :: insert_index p i l'
  end.

Definition insertion_argsort (p : list Qc) : list nat :=
  foldr (insert_index p) [] (seq 0 (length p)).

(** ** Cell 10: the graph exported by [build_rnn]

    The recurrent cell, the loss and the optimizer are TensorFlow's; a
    graph is taken as the three [sess.run] calls the notebook makes on it,
    each a function of the learned parameters, the fed state and the fed
    window. *)

Record graph (State Params : Type) : Type := Graph {
  (** [sess.run(model.initial_state)] *)
  initial_state : State;
  (** [sess.run([model.cost, model.final_state, model.optimizer], feed)] *)
  run_train : Params -> State -> Np.matrix nat -> Np.matrix nat ->
              Qc * State * Params;
  (** [sess.run([model.cost, model.final_state], feed)], [keep_prob] 1 *)
  run_eval : Params -> State -> Np.matrix nat -> Np.matrix nat -> Qc * State;
  (** [sess.run([model.preds, model.final_state], feed)] on one symbol *)
  run_preds : Params -> State -> nat -> list Qc * State
}.
Arguments Graph {State Params} _ _ _ _.
Arguments initial_state {State Params} _.
Arguments run_train {State Params} _ _ _ _ _.
Arguments run_eval {State Params} _ _ _ _ _.
Arguments run_preds {State Params} _ _ _ _.

(** [for x in xs: s = body(x, s)], stopping at the first exception. *)
Fixpoint for_each {X S : Type} (xs : list X) (s : S)
    (body : X -> S -> result S) : result S :=
  match xs with
  | [] => Ok s
  | x :: xs' => s' ← body x s; for_each xs' s' body
  end.

(** [enumerate(xs, start)] *)
Definition enumerate_from {X : Type} (start : nat) (xs : list X)
  : list (nat * X) :=
  imap (fun i x => (start + i, x)) xs.

(** Unpacking a yielded list into [(x, y)]. *)
Definition unpack_pair {X : Type} (w : list X) : result (X * X) :=
  match w with
  | [x; y] => Ok (x, y)
  | _ => Raise ValueError
  end.

(** ** Cell 14: the training loop *)

Section Training.
Context {State Params : Type}.

(** One training step as the loop performs it: which batch, the state
    that was fed as [model.initial_state] and the [final_state] that
    came back. *)
Record train_event : Type := TrainEvent {
  ev_epoch : nat;
  ev_batch : nat;
  ev_iteration : nat;
  ev_fed : State;
  ev_final : State
}.

(** What [saver.save] is handed: the parameters, with the iteration,
    the width and the validation losses (whose mean goes into the file
    name). *)
Record checkpoint : Type := Checkpoint {
  ck_iteration : nat;
  ck_lstm_size : nat;
  ck_val_loss : list Qc;
  ck_params : Params
}.

(** The variables the loop assigns, with the log of training steps and
    the checkpoints handed to [saver.save]. *)
Record session : Type := Session {
  s_params : Params;
  s_new_state : State;
  s_loss : Qc;
  s_events : list train_event;
  s_saved : list checkpoint
}.

Variable model : graph State Params.
Variables train_x train_y val_x val_y : Np.matrix nat.
Variables num_steps lstm_size epochs save_every_n : nat.

(** The validation pass, lines 660-668; it assigns [new_state]. *)
Definition validation_pass (params : Params) : result (State * list Qc) :=
  let val_loss := [] in
  let new_state := initial_state model in
  batches ← gen_drain (get_batch [val_x; val_y] num_steps);
  for_each batches (new_state, val_loss) (fun w '(new_state, val_loss) =>
    '(x, y) ← unpack_pair w;
    let '(batch_loss, new_state) := run_eval model params new_state x y in
    Ok (new_state, val_loss ++ [batch_loss])).

(** The body of the inner [for], lines 642-672. *)
Definition train_batch (e n_batches iterations : nat)
    (bw : nat * list (Np.matrix nat)) (s : session) : result session :=
  let '(b, w) := bw in
  '(x, y) ← unpack_pair w;
  let iteration := e * n_batches + b in
  let '(batch_loss, new_state, params) :=
    run_train model (s_params s) (s_new_state s) x y in
  let ev := TrainEvent e b iteration (s_new_state s) new_state in
  let loss := (s_loss s + batch_loss)%Qc in
  let events := s_events s ++ [ev] in
  r ← Py.modulo iteration save_every_n;
  if decide (r = 0 \/ iteration = iterations) then
    '(new_state, val_loss) ← validation_pass params;
    Ok (Session params new_state loss events
          (s_saved s ++ [Checkpoint iteration lstm_size val_loss params]))
  else Ok (Session params new_state loss events (s_saved s)).

(** The body of the outer [for], lines 636-672. *)
Definition train_epoch (n_batches iterations : nat) (e : nat) (s : session)
  : result session :=
  let s := Session (s_params s) (initial_state model) 0%Qc
                   (s_events s) (s_saved s) in
  batches ← gen_drain (get_batch [train_x; train_y] num_steps);
  for_each (enumerate_from 1 batches) s (train_batch e n_batches iterations).

Definition train (init_params : Params) : result session :=
  n_batches ← Py.int_div (Np.ncols train_x) num_steps;
  let iterations := n_batches * epochs in
  for_each (seq 0 epochs)
           (Session init_params (initial_state model) 0%Qc [] [])
           (train_epoch n_batches iterations).

End Training.
Arguments train_event : clear implicits.
Arguments checkpoint : clear implicits.
Arguments session : clear implicits.

(** Every two training steps that follow one another within an epoch
    hand the state over. *)
Definition state_carried {State : Type} (events : list (train_event State))
  : Prop :=
  forall i ev1 ev2,
    events !! i = Some ev1 -> events !! (S i) = Some ev2 ->
    ev_epoch ev1 = ev_epoch ev2 ->
    ev_fed ev2 = ev_final ev1.

(** The same hand-over, asked only of steps after which no validation
    pass ran. *)
Definition validation_due (save_every_n iterations iteration : nat) : Prop :=
  iteration mod save_every_n = 0 \/ iteration = iterations.

Definition state_carried_unless_validated {State : Type}
    (save_every_n iterations : nat) (events : list (train_event State))
  : Prop :=
  forall i ev1 ev2,
    events !! i = Some ev1 -> events !! (S i) = Some ev2 ->
    ev_epoch ev1 = ev_epoch ev2 ->
    ~ validation_due save_every_n iterations (ev_iteration ev1) ->
    ev_fed ev2 = ev_final ev1.

Section TrainingInvariants.
Context {State Params : Type}.
Variable model : graph State Params.
Variable save_every_n : nat.
Implicit Types (s : session State Params) (ev : train_event State).

(** What holds of the log while epoch [e] is running, [k] batches in. *)
Definition epoch_invariant (iterations e k : nat) s : Prop :=
  state_carried_unless_validated save_every_n iterations (s_events s) /\
  Forall (fun ev => ev_epoch ev <= e) (s_events s) /\
  Forall (fun ev => ev_batch ev = 1 -> ev_fed ev = initial_state model)
         (s_events s) /\
  (k = 0 -> s_new_state s = initial_state model) /\
  (forall ev, last (s_events s) = Some ev -> ev_epoch ev = e ->
     ~ validation_due save_every_n iterations (ev_iteration ev) ->
     s_new_state s = ev_final ev).

(** What holds of the log between epochs, before epoch [e] starts. *)
Definition run_invariant (iterations e : nat) s : Prop :=
  state_carried_unless_validated save_every_n iterations (s_events s) /\
  Forall (fun ev => ev_epoch ev < e) (s_events s) /\
  Forall (fun ev => ev_batch ev = 1 -> ev_fed ev = initial_state model)
         (s_events s).

End TrainingInvariants.

(** The log numbers the training steps 1, 2, ... in the order they are
    made, [n_batches] to an epoch. *)
Definition numbered {State : Type} (n_batches : nat)
    (events : list (train_event State)) : Prop :=
  forall k ev, events !! k = Some ev ->
    ev_iteration ev = k + 1 /\
    ev_epoch ev = k / n_batches /\
    ev_batch ev = k mod n_batches + 1.

(** The iterations, among the first [upto], after which a checkpoint is
    written. *)
Definition due_iterations (save_every_n iterations upto : nat) : list nat :=
  filter (fun it => it mod save_every_n = 0 \/ it = iterations) (seq 1 upto).

Section ValidationLeak.
Context {State Params : Type}.
Variable model : graph State Params.
Variables val_x val_y : Np.matrix nat.
Variables num_steps save_every_n iterations : nat.

(** The state [fed] is the one a validation pass ended in, namely the
    pass whose checkpoint, among [saved], carries the iteration number
    [iteration]. *)
Definition fed_by_validation (saved : list (checkpoint Params))
    (iteration : nat) (fed : State) : Prop :=
  exists ck,
    ck ∈ saved /\ ck_iteration ck = iteration /\
    validation_pass model val_x val_y num_steps (ck_params ck)
    = Ok (fed, ck_val_loss ck).

(** After a step that was followed by a validation pass, the next step
    of the epoch is fed the state that pass ended in. *)
Definition validation_state_fed (events : list (train_event State))
    (saved : list (checkpoint Params)) : Prop :=
  forall i ev1 ev2,
    events !! i = Some ev1 -> events !! (S i) = Some ev2 ->
    ev_epoch ev1 = ev_epoch ev2 ->
    validation_due save_every_n iterations (ev_iteration ev1) ->
    fed_by_validation saved (ev_iteration ev1) (ev_fed ev2).

End ValidationLeak.

(** ** Cell 20: [sample] *)

Section Sample.
Context {State Params Ckpt : Type}.

(** The notebook's globals [vocab], [vocab_to_int], [int_to_vocab]. *)
Variable voc : vocabulary ascii.
(** [build_rnn(vocab_size, lstm_size=lstm_size, sampling=True)] *)
Variable build_rnn : nat -> nat -> graph State Params.
(** [saver.restore(sess, checkpoint)] *)
Variable restore : Ckpt -> result Params.
Variable argsort : list Qc -> list nat.

(** The local names the two loops assign. *)
Record sampler : Type := Sampler {
  sm_preds : option loc;
  sm_new_state : State;
  sm_c : option nat;
  sm_samples : list ascii;
  sm_heap : heap
}.

Definition feed_symbol (model : graph State Params) (params : Params)
    (i : nat) (s : sampler) : sampler :=
  let '(pv, new_state) := run_preds model params (sm_new_state s) i in
  let '(preds, h) := heap_alloc (sm_heap s) pv in
  Sampler (Some preds) new_state (sm_c s) (sm_samples s) h.

(** Lines 741-742 and 752-753; [top_n] is left at its default 5. *)
Definition pick_and_append (u : Qc) (s : sampler) : result sampler :=
  preds ← from_option Ok (Raise NameError) (sm_preds s);
  '(c, h) ← pick_top_n argsort preds (size (vocab voc)) 5 u (sm_heap s);
  ch ← dict_get (int_to_vocab voc) c;
  Ok (Sampler (sm_preds s) (sm_new_state s) (Some c)
              (sm_samples s ++ [ch]) h).

(** [rng k] is the uniform variate of the [k]-th draw. *)
Definition sample (checkpoint : Ckpt) (n_samples lstm_size vocab_size : nat)
    (prime : string) (rng : nat -> Qc) : result string :=
  let prime := "Far"%string in
  let samples := list_ascii_of_string prime in
  let model := build_rnn vocab_size lstm_size in
  params ← restore checkpoint;
  let new_state := initial_state model in
  s ← for_each (list_ascii_of_string prime)
        (Sampler None new_state None samples ∅)
        (fun c s =>
           i ← dict_get (vocab_to_int voc) c;
           Ok (feed_symbol model params i s));
  s ← pick_and_append (rng 0) s;
  s ← for_each (seq 0 n_samples) s
        (fun i s =>
           c ← from_option Ok (Raise NameError) (sm_c s);
           let s := feed_symbol model params c s in
           pick_and_append (rng (S i)) s);
  Ok (string_of_list_ascii (sm_samples s)).

End Sample.

(** ** Small concrete instances on which the loops are run *)

(** A graph whose state counts the windows fed since the state was last
    zeroed: a training step adds 1, a validation step adds 100.  Its
    prediction is the uniform distribution over [num_classes] symbols. *)
Definition counting_graph (num_classes : nat) : graph nat unit :=
  Graph 0
        (fun p s _ _ => (0%Qc, S s, p))
        (fun p s _ _ => (0%Qc, s + 100))
        (fun _ s _ =>
           (replicate num_classes (1 / Py.Qc_of_nat num_classes)%Qc, S s)).

Definition vocabulary_of (text : string) : vocabulary ascii :=
  match build_vocabulary (list_ascii_of_string text) with
  | Ok v => v
  | Raise _ => Vocabulary ∅ ∅ ∅ []
  end.

(** * Properties *)


(** One step of the error monad: [Ok a ≫= k] is [k a]. *)
Ltac bind_ok :=
  change (Ok ?a ≫= ?k) with (k a); cbv beta.
Tactic Notation "bind_ok" "in" hyp(H) :=
  change (Ok ?a ≫= ?k) with (k a) in H; cbv beta in H.

Section PySlices.
Context {A : Type}.
Implicit Types (l : list A) (k a b : nat).

Lemma clamp_index_nat len k : Py.clamp_index len (Z.of_nat k) = k `min` len.
Proof.
  unfold Py.clamp_index.
  destruct (Z.ltb_spec (Z.of_nat k) 0); [lia|]. by rewrite Nat2Z.id.
Qed.

Lemma clamp_index_le len z : Py.clamp_index len z <= len.
Proof. unfold Py.clamp_index. destruct (Z.ltb_spec z 0); lia. Qed.

Lemma slice_to_nat k l : Py.slice_to (Z.of_nat k) l = take k l.
Proof.
  unfold Py.slice_to. rewrite clamp_index_nat.
  destruct (decide (k <= length l)).
  - by rewrite Nat.min_l.
  - rewrite Nat.min_r by lia. rewrite !take_ge; [done|lia..].
Qed.

Lemma slice_from_nat k l : Py.slice_from (Z.of_nat k) l = drop k l.
Proof.
  unfold Py.slice_from. rewrite clamp_index_nat.
  destruct (decide (k <= length l)).
  - by rewrite Nat.min_l.
  - rewrite Nat.min_r by lia. rewrite !drop_ge; [done|lia..].
Qed.

Lemma slice_nat a b l :
  Py.slice (Z.of_nat a) (Z.of_nat b) l = take (b - a) (drop a l).
Proof.
  unfold Py.slice. rewrite !clamp_index_nat.
  destruct (decide (a <= length l)).
  - rewrite (Nat.min_l a) by done.
    destruct (decide (b <= length l)).
    + by rewrite Nat.min_l.
    + rewrite Nat.min_r by lia.
      rewrite !take_ge; [done|rewrite length_drop; lia..].
  - rewrite !drop_ge by lia. by rewrite !take_nil.
Qed.

Lemma slice_to_from z l : Py.slice_to z l ++ Py.slice_from z l = l.
Proof. apply take_drop. Qed.

Lemma length_slice_to z l :
  length (Py.slice_to z l) = Py.clamp_index (length l) z.
Proof.
  unfold Py.slice_to. rewrite length_take.
  pose proof (clamp_index_le (length l) z). lia.
Qed.

Lemma length_slice_from z l :
  length (Py.slice_from z l) = length l - Py.clamp_index (length l) z.
Proof. unfold Py.slice_from. by rewrite length_drop. Qed.

End PySlices.

Section NpSplit.
Context {A : Type}.
Implicit Types (ary : list A).

Lemma chunks_S each n ary :
  Np.chunks each (S n) ary = take each ary :: Np.chunks each n (drop each ary).
Proof.
  unfold Np.chunks. rewrite <- cons_seq. simpl. f_equal.
  rewrite <- seq_shift, map_map. apply map_ext; intros i.
  rewrite drop_drop. reflexivity.
Qed.

Lemma length_chunks each n ary : length (Np.chunks each n ary) = n.
Proof. unfold Np.chunks. by rewrite length_map, length_seq. Qed.

Lemma chunks_lookup each n ary i :
  i < n -> Np.chunks each n ary !! i = Some (take each (drop (i * each) ary)).
Proof.
  intros Hi. unfold Np.chunks. rewrite list_lookup_fmap.
  by rewrite lookup_seq_lt.
Qed.

Lemma chunks_Forall_length each n ary :
  n * each <= length ary ->
  Forall (fun r => length r = each) (Np.chunks each n ary).
Proof.
  intros Hlen. apply Forall_forall. intros r Hr.
  apply list_elem_of_lookup in Hr as [i Hi].
  pose proof (lookup_lt_Some _ _ _ Hi) as Hlt.
  rewrite length_chunks in Hlt. rewrite chunks_lookup in Hi by done.
  injection Hi as <-. rewrite length_take, length_drop. nia.
Qed.

Lemma concat_chunks each n ary :
  length ary = n * each -> concat (Np.chunks each n ary) = ary.
Proof.
  revert ary. induction n as [|n IH]; intros ary Hlen.
  - destruct ary; [done|simpl in Hlen; lia].
  - rewrite chunks_S. simpl. rewrite IH, take_drop; [done|].
    rewrite length_drop. lia.
Qed.

Lemma split_Ok ary sections each :
  0 < sections -> length ary = sections * each ->
  Np.split ary sections = Ok (Np.chunks each sections ary).
Proof.
  intros Hpos Hlen. unfold Np.split, Py.modulo.
  destruct (decide (sections = 0)); [lia|]. simpl.
  rewrite Hlen, Nat.mul_comm, Nat.Div0.mod_mul.
  destruct (decide (0 = 0)); [|done].
  by rewrite Nat.div_mul by lia.
Qed.

Lemma split_Raise ary sections :
  0 < sections -> length ary mod sections <> 0 ->
  Np.split ary sections = Raise ValueError.
Proof.
  intros Hpos Hmod. unfold Np.split, Py.modulo.
  destruct (decide (sections = 0)); [lia|]. simpl.
  by destruct (decide _).
Qed.

Lemma stack_chunks each n ary :
  0 < n -> n * each <= length ary ->
  Np.stack (Np.chunks each n ary)
  = Ok (Np.Matrix n each (Np.chunks each n ary)).
Proof.
  intros Hpos Hlen. pose proof (chunks_Forall_length _ _ _ Hlen) as Hall.
  unfold Np.stack. destruct (Np.chunks each n ary) as [|a rest] eqn:E.
  - apply (f_equal length) in E. rewrite length_chunks in E. simpl in E. lia.
  - pose proof (Forall_inv Hall) as Ha. simpl in Ha.
    rewrite decide_True by (by rewrite Ha).
    rewrite Ha. f_equal. f_equal.
    rewrite <- E. apply length_chunks.
Qed.

End NpSplit.

Section SplitDataFacts.
Context {A : Type}.
Implicit Types (chars : list A) (B S : nat) (f : Qc).

Lemma chunks_nil each n : Np.chunks each n (@nil A) = replicate n [].
Proof.
  induction n as [|n IH]; [done|].
  rewrite chunks_S, drop_nil, IH. simpl. by rewrite take_nil.
Qed.

(** The input lanes do not depend on how the targets turn out. *)
Lemma split_data_inputs chars B S :
  B * S <> 0 ->
  let n := length chars / (B * S) in
  let x := Py.slice_to (Z.of_nat (n * (B * S))) chars in
  Np.split x B ≫= Np.stack
  = Ok (Np.Matrix B (n * S) (Np.chunks (n * S) B x)).
Proof.
  intros HBS n x.
  assert (Hx : length x = B * (n * S)).
  { subst x. rewrite slice_to_nat, length_take.
    pose proof (Nat.Div0.mul_div_le (length chars) (B * S)). subst n. lia. }
  rewrite (split_Ok _ _ (n * S)) by (done || lia). simpl.
  apply stack_chunks; lia.
Qed.

Lemma split_data_inv chars B S f tx ty vx vy :
  split_data chars B S f = Ok (tx, ty, vx, vy) ->
  let n := length chars / (B * S) in
  let k := (Py.int (Py.Qc_of_nat n * f)%Qc * Z.of_nat S)%Z in
  let X := Np.Matrix B (n * S)
             (Np.chunks (n * S) B (Py.slice_to (Z.of_nat (n * (B * S))) chars)) in
  B * S <> 0 /\
  exists Y,
    Np.split (Py.slice 1 (Z.of_nat (n * (B * S)) + 1) chars) B ≫= Np.stack = Ok Y /\
    tx = Np.cols_to k X /\ ty = Np.cols_to k Y /\
    vx = Np.cols_from k X /\ vy = Np.cols_from k Y.
Proof.
  intros Hrun n k X. unfold split_data, Py.int_div in Hrun.
  destruct (decide (B * S = 0)) as [|HBS]; [discriminate|].
  split; [done|]. simpl in Hrun.
  pose proof (split_data_inputs chars B S HBS) as Hx. simpl in Hx.
  destruct (Np.split (Py.slice_to _ chars) B) as [xs|] eqn:Exs; [|discriminate].
  simpl in Hx, Hrun. rewrite Hx in Hrun. simpl in Hrun.
  destruct (Np.split (Py.slice 1 _ chars) B) as [ys|] eqn:Eys; [|discriminate].
  simpl in Hrun. destruct (Np.stack ys) as [Y|] eqn:EY; [|discriminate].
  simpl in Hrun. exists Y. injection Hrun as <- <- <- <-.
  subst n k X. simpl. by rewrite EY.
Qed.

End SplitDataFacts.

Section SplitDataLanes.
Context {A : Type}.
Implicit Types (chars : list A) (B S : nat) (f : Qc).

Lemma zip_slice_to_from (z : Z) (rs : list (list A)) :
  zip_with app (map (Py.slice_to z) rs) (map (Py.slice_from z) rs) = rs.
Proof.
  induction rs as [|r rs IH]; [done|].
  simpl. by rewrite IH, slice_to_from.
Qed.

(** Claim C5.  Whenever [split_data] returns, lane [i] of the input
    matrix is positions [[i*n*S, (i+1)*n*S)] of the truncated stream:
    row [i] of [train_x] followed by row [i] of [val_x] is exactly that
    block, there are [B] lanes, and the lanes laid end to end are the
    truncated stream (a partition into contiguous blocks, not an
    interleaving). *)
Theorem split_data_lanes chars B S f tx ty vx vy :
  split_data chars B S f = Ok (tx, ty, vx, vy) ->
  let n := length chars / (B * S) in
  let truncated := Py.slice_to (Z.of_nat (n * B * S)) chars in
  (forall i, i < B ->
     exists a b,
       Np.rows tx !! i = Some a /\ Np.rows vx !! i = Some b /\
       a ++ b = Py.slice (Z.of_nat (i * n * S)) (Z.of_nat ((i + 1) * n * S))
                         truncated) /\
  length (Np.rows tx) = B /\ length (Np.rows vx) = B /\
  concat (zip_with app (Np.rows tx) (Np.rows vx)) = truncated.
Proof.
  intros Hrun n truncated.
  apply split_data_inv in Hrun as (HBS & Y & _ & -> & _ & -> & _).
  fold n. replace (n * (B * S)) with (n * B * S) by lia. fold truncated.
  assert (Hlen : length truncated = B * (n * S)).
  { subst truncated. rewrite slice_to_nat, length_take.
    pose proof (Nat.Div0.mul_div_le (length chars) (B * S)). subst n. lia. }
  simpl. split_and!.
  - intros i Hi. rewrite !list_lookup_fmap, chunks_lookup by done. simpl.
    eexists _, _. split_and!; [done..|].
    rewrite slice_to_from, slice_nat. do 2 f_equal; lia.
  - by rewrite length_map, length_chunks.
  - by rewrite length_map, length_chunks.
  - rewrite zip_slice_to_from. apply concat_chunks. lia.
Qed.

End SplitDataLanes.

Lemma split_data_lanes_witness :
  let chars := [10; 11; 12; 13; 14; 15; 16; 17; 18] in
  let tx := Np.Matrix 2 2 [[10; 11]; [14; 15]] in
  let vx := Np.Matrix 2 2 [[12; 13]; [16; 17]] in
  let truncated := Py.slice_to (Z.of_nat (2 * 2 * 2)) chars in
  (forall i, i < 2 ->
     exists a b,
       Np.rows tx !! i = Some a /\ Np.rows vx !! i = Some b /\
       a ++ b = Py.slice (Z.of_nat (i * 2 * 2)) (Z.of_nat ((i + 1) * 2 * 2))
                         truncated) /\
  length (Np.rows tx) = 2 /\ length (Np.rows vx) = 2 /\
  concat (zip_with app (Np.rows tx) (Np.rows vx)) = truncated.
Proof.
  apply (split_data_lanes [10; 11; 12; 13; 14; 15; 16; 17; 18] 2 2
           (Q2Qc (1 # 2)) _
           (Np.Matrix 2 2 [[11; 12]; [15; 16]]) _
           (Np.Matrix 2 2 [[13; 14]; [17; 18]])).
  vm_compute. reflexivity.
Defined.

Lemma Py_int_bounds (q : Qc) (n : nat) :
  (0 <= q)%Qc -> (q <= Py.Qc_of_nat n)%Qc -> (0 <= Py.int q <= Z.of_nat n)%Z.
Proof.
  intros H0 Hn. unfold Py.int.
  unfold Qcle in H0, Hn. unfold Py.Qc_of_nat, Qc_of_Z in Hn. simpl in H0, Hn.
  unfold Qle in H0, Hn. simpl in H0, Hn.
  destruct (this q) as [num den]. simpl in *.
  assert (0 <= num)%Z by lia.
  rewrite Z.quot_div_nonneg by lia. split.
  - apply Z.div_pos; lia.
  - apply Z.div_le_upper_bound; lia.
Qed.

Lemma Py_int_0 : Py.int 0%Qc = 0%Z.
Proof. reflexivity. Qed.

Section SplitDataShort.
Context {A : Type}.
Implicit Types (chars : list A) (B S : nat) (f : Qc).

Lemma clamp_index_0 z : Py.clamp_index 0 z = 0.
Proof. pose proof (clamp_index_le 0 z). lia. Qed.

Lemma split_stack_nil B :
  0 < B ->
  Np.split (@nil A) B ≫= Np.stack = Ok (Np.Matrix B 0 (replicate B [])).
Proof.
  intros HB. rewrite (split_Ok [] B 0) by (simpl; lia).
  change (Ok ?a ≫= ?k) with (k a).
  rewrite stack_chunks by (simpl; lia). by rewrite chunks_nil.
Qed.

(** Claim C7, as amended.  With [B >= 1], [S >= 1] and
    [floor(len / (B*S)) = 0], [split_data] raises nothing: it returns
    four matrices of [B] rows and no columns. *)
Theorem split_data_no_full_batch chars B S f :
  0 < B -> 0 < S -> length chars / (B * S) = 0 ->
  split_data chars B S f
  = Ok (Np.Matrix B 0 (replicate B []), Np.Matrix B 0 (replicate B []),
        Np.Matrix B 0 (replicate B []), Np.Matrix B 0 (replicate B [])).
Proof.
  intros HB HS Hn. unfold split_data, Py.int_div.
  destruct (decide (B * S = 0)); [lia|].
  change (Ok (length chars `div` (B * S)) ≫= ?k)
    with (k (length chars `div` (B * S))).
  cbv beta. rewrite Hn, Nat.mul_0_l.
  assert (Hx : Py.slice_to (Z.of_nat 0) chars = []).
  { by rewrite slice_to_nat, take_0. }
  assert (Hy : Py.slice 1 (Z.of_nat 0 + 1) chars = []).
  { unfold Py.slice. by rewrite Nat.sub_diag. }
  rewrite Hx, Hy.
  pose proof (split_stack_nil B HB) as Hnil.
  destruct (Np.split (@nil A) B) as [xs|]; [|discriminate].
  change (Ok xs ≫= ?k) with (k xs) in Hnil. cbv beta in Hnil.
  repeat first [ rewrite Hnil
               | progress bind_ok ].
  replace (Py.Qc_of_nat 0) with 0%Qc by (by apply Qc_is_canon).
  rewrite Qcmult_0_l, Py_int_0, Z.mul_0_l.
  unfold Np.cols_to, Np.cols_from. simpl.
  rewrite clamp_index_0. by rewrite !fmap_replicate.
Qed.
End SplitDataShort.

Lemma split_data_no_full_batch_witness :
  split_data [0; 1; 2] 2 2 (Q2Qc (9 # 10))
  = Ok (Np.Matrix 2 0 [[]; []], Np.Matrix 2 0 [[]; []],
        Np.Matrix 2 0 [[]; []], Np.Matrix 2 0 [[]; []]).
Proof.
  apply (split_data_no_full_batch [0; 1; 2] 2 2 (Q2Qc (9 # 10))).
  - lia.
  - lia.
  - reflexivity.
Defined.

(** Claim C7 as stated fails: three tokens, [B = S = 2], no full batch,
    and the call returns. *)
Lemma split_data_no_full_batch_counterexample :
  length [0; 1; 2] / (2 * 2) = 0 /\
  ~ (exists e, split_data [0; 1; 2] 2 2 (Q2Qc (9 # 10)) = Raise e).
Proof.
  split; [reflexivity|]. intros [e He]. vm_compute in He. discriminate.
Qed.

(** Claim C2.  The claim asks for a result whenever
    [len(tokens) >= B*S].  On four tokens with [B = S = 2] the targets
    [chars[1 : 5]] are three tokens long, [np.split] cannot cut them in
    two, and [split_data] raises [ValueError]. *)
Theorem split_data_exact_multiple_raises :
  length [0; 1; 2; 3] >= 2 * 2 /\
  split_data [0; 1; 2; 3] 2 2 (Q2Qc (9 # 10)) = Raise ValueError.
Proof. split; [simpl; lia|]. vm_compute. reflexivity. Qed.

Section MatrixFacts.
Context {A : Type}.
Implicit Types (m : Np.matrix A).

Lemma wf_cols_to z m : Np.wf m -> Np.wf (Np.cols_to z m).
Proof.
  intros [Hr Hc]. split; simpl; [by rewrite length_map|].
  apply Forall_fmap. eapply Forall_impl; [exact Hc|].
  intros r Hlen. simpl. by rewrite length_slice_to, Hlen.
Qed.

Lemma wf_cols_from z m : Np.wf m -> Np.wf (Np.cols_from z m).
Proof.
  intros [Hr Hc]. split; simpl; [by rewrite length_map|].
  apply Forall_fmap. eapply Forall_impl; [exact Hc|].
  intros r Hlen. simpl. by rewrite length_slice_from, Hlen.
Qed.

Lemma wf_cols a b m : Np.wf m -> Np.wf (Np.cols a b m).
Proof.
  intros [Hr Hc]. split; simpl; [by rewrite length_map|].
  apply Forall_fmap. eapply Forall_impl; [exact Hc|].
  intros r Hlen. simpl. unfold Py.slice.
  rewrite length_take, length_drop, Hlen.
  pose proof (clamp_index_le (Np.ncols m) a).
  pose proof (clamp_index_le (Np.ncols m) b). lia.
Qed.

Lemma wf_chunks each n (ary : list A) :
  n * each <= length ary -> Np.wf (Np.Matrix n each (Np.chunks each n ary)).
Proof.
  intros Hlen. split; simpl; [apply length_chunks|].
  by apply chunks_Forall_length.
Qed.

Lemma at2_cols_to k m i j :
  j < k -> Np.at2 (Np.cols_to (Z.of_nat k) m) i j = Np.at2 m i j.
Proof.
  intros Hj. unfold Np.at2, Np.cols_to. simpl.
  rewrite list_lookup_fmap. destruct (Np.rows m !! i) as [r|]; [|done].
  simpl. rewrite slice_to_nat. by apply lookup_take_lt.
Qed.

Lemma at2_chunks each n (ary : list A) i j :
  i < n -> j < each ->
  Np.at2 (Np.Matrix n each (Np.chunks each n ary)) i j = ary !! (i * each + j).
Proof.
  intros Hi Hj. unfold Np.at2. simpl. rewrite chunks_lookup by done.
  simpl. by rewrite lookup_take_lt, lookup_drop.
Qed.

End MatrixFacts.

Section SplitDataFull.
Context {A : Type}.
Implicit Types (chars : list A) (B S : nat) (f : Qc).

Lemma Qc_of_nat_nonneg n : (0 <= Py.Qc_of_nat n)%Qc.
Proof.
  unfold Py.Qc_of_nat, Qc_of_Z, Qcle, Qle. simpl. lia.
Qed.

Lemma split_index_bounds n f :
  (0 <= f)%Qc -> (f <= 1)%Qc ->
  (0 <= Py.int (Py.Qc_of_nat n * f)%Qc <= Z.of_nat n)%Z.
Proof.
  intros H0 H1. apply Py_int_bounds.
  - rewrite <- (Qcmult_0_r (Py.Qc_of_nat n)).
    apply Qcmult_le_mono_nonneg_l; [apply Qc_of_nat_nonneg|done].
  - rewrite <- (Qcmult_1_r (Py.Qc_of_nat n)) at 2.
    apply Qcmult_le_mono_nonneg_l; [apply Qc_of_nat_nonneg|done].
Qed.

(** With one token to spare after the last full batch, and a split
    fraction between 0 and 1, [split_data] returns matrices of the
    documented shapes, with the split index that the exact product
    gives, and every training target is the token that follows its input
    in the stream. *)
Lemma split_data_spare_token chars B S f :
  0 < B -> 0 < S -> (0 <= f)%Qc -> (f <= 1)%Qc ->
  let n := length chars / (B * S) in
  let split_idx := Z.to_nat (Py.int (Py.Qc_of_nat n * f)%Qc) in
  n * (B * S) < length chars ->
  exists tx ty vx vy,
    split_data chars B S f = Ok (tx, ty, vx, vy) /\
    Np.shape tx = (B, split_idx * S) /\ Np.shape ty = (B, split_idx * S) /\
    Np.shape vx = (B, (n - split_idx) * S) /\
    Np.shape vy = (B, (n - split_idx) * S) /\
    Np.wf tx /\ Np.wf ty /\ Np.wf vx /\ Np.wf vy /\
    forall i j, i < B -> j < split_idx * S ->
      Np.at2 tx i j = chars !! (i * (n * S) + j) /\
      Np.at2 ty i j = chars !! (i * (n * S) + j + 1).
Proof.
  intros HB HS H0 H1 n split_idx Hspare.
  pose proof (split_index_bounds n f H0 H1) as Hsi. fold n in Hsi.
  assert (HBS : B * S <> 0) by lia.
  set (x := Py.slice_to (Z.of_nat (n * (B * S))) chars).
  set (y := Py.slice 1 (Z.of_nat (n * (B * S)) + 1) chars).
  assert (Ey : y = take (n * (B * S)) (drop 1 chars)).
  { subst y. replace (Z.of_nat (n * (B * S)) + 1)%Z
      with (Z.of_nat (n * (B * S) + 1)) by lia.
    change 1%Z with (Z.of_nat 1). rewrite slice_nat. f_equal. lia. }
  assert (Hx : length x = B * (n * S)).
  { subst x. rewrite slice_to_nat, length_take. lia. }
  assert (Hy : length y = B * (n * S)).
  { rewrite Ey, length_take, length_drop. lia. }
  set (k := (Py.int (Py.Qc_of_nat n * f)%Qc * Z.of_nat S)%Z).
  assert (Ek : k = Z.of_nat (split_idx * S)) by (subst k split_idx; lia).
  assert (Hsn : split_idx <= n) by (subst split_idx; lia).
  set (X := Np.Matrix B (n * S) (Np.chunks (n * S) B x)).
  set (Y := Np.Matrix B (n * S) (Np.chunks (n * S) B y)).
  assert (HX : Np.wf X) by (apply wf_chunks; lia).
  assert (HY : Np.wf Y) by (apply wf_chunks; lia).
  exists (Np.cols_to k X), (Np.cols_to k Y),
         (Np.cols_from k X), (Np.cols_from k Y).
  split_and!.
  - unfold split_data, Py.int_div. rewrite decide_False by done.
    bind_ok. fold n x y.
    rewrite (split_Ok x B (n * S)), (split_Ok y B (n * S)) by (done || lia).
    repeat first [ rewrite stack_chunks by lia
                 | progress bind_ok ].
    done.
  - unfold Np.shape. simpl. rewrite Ek, clamp_index_nat. f_equal. nia.
  - unfold Np.shape. simpl. rewrite Ek, clamp_index_nat. f_equal. nia.
  - unfold Np.shape. simpl. rewrite Ek, clamp_index_nat. f_equal. nia.
  - unfold Np.shape. simpl. rewrite Ek, clamp_index_nat. f_equal. nia.
  - by apply wf_cols_to.
  - by apply wf_cols_to.
  - by apply wf_cols_from.
  - by apply wf_cols_from.
  - intros i j Hi Hj. assert (j < n * S) by nia. rewrite Ek.
    rewrite !at2_cols_to by done. subst X Y.
    rewrite !at2_chunks by done. split.
    + subst x. rewrite slice_to_nat, lookup_take_lt; [done|nia].
    + rewrite Ey, lookup_take_lt, lookup_drop by nia. f_equal. lia.
Qed.

End SplitDataFull.

Section SplitDataExact.
Context {A : Type}.
Implicit Types (chars : list A) (B S : nat) (f : Qc).

Lemma pred_multiple_mod a B :
  2 <= B -> 1 <= a -> (a * B - 1) mod B <> 0.
Proof.
  intros HB Ha.
  replace (a * B - 1) with (B - 1 + (a - 1) * B) by nia.
  rewrite Nat.Div0.mod_add, Nat.mod_small; lia.
Qed.

(** The failure is not particular to one input: whenever the stream is
    an exact multiple of [B*S] and there are at least two lanes, the
    target view is one token short and cannot be cut into [B] lanes. *)
Lemma split_data_exact_multiple chars B S f n :
  2 <= B -> 0 < S -> 1 <= n -> length chars = n * (B * S) ->
  split_data chars B S f = Raise ValueError.
Proof.
  intros HB HS Hn Hlen. unfold split_data, Py.int_div.
  rewrite decide_False by nia.
  bind_ok.
  rewrite Hlen, Nat.div_mul by nia.
  set (x := Py.slice_to (Z.of_nat (n * (B * S))) chars).
  set (y := Py.slice 1 (Z.of_nat (n * (B * S)) + 1) chars).
  assert (Hx : length x = B * (n * S)).
  { subst x. rewrite slice_to_nat, length_take. lia. }
  assert (Hy : length y = n * S * B - 1).
  { subst y. replace (Z.of_nat (n * (B * S)) + 1)%Z
      with (Z.of_nat (n * (B * S) + 1)) by lia.
    change 1%Z with (Z.of_nat 1).
    rewrite slice_nat, length_take, length_drop. lia. }
  rewrite (split_Ok x B (n * S)) by (done || lia).
  bind_ok.
  rewrite stack_chunks by lia.
  bind_ok.
  rewrite split_Raise; [done|lia|].
  rewrite Hy. apply pred_multiple_mod; [done|nia].
Qed.

End SplitDataExact.

(** With a single lane the call returns, but the targets are one
    column short of the inputs: the last input has no target. *)
Example split_data_single_lane_ragged :
  exists tx ty vx vy,
    split_data [0; 1; 2] 1 3 1%Qc = Ok (tx, ty, vx, vy) /\
    Np.shape tx = (1, 3) /\ Np.shape ty = (1, 2) /\
    Np.at2 tx 0 2 = Some 2 /\ Np.at2 ty 0 2 = None.
Proof.
  eexists _, _, _, _. split; [vm_compute; reflexivity|]. repeat split.
Qed.

(** ** The batch generator *)

Section GetBatchFacts.
Context {A : Type}.
Implicit Types (arrs : list (Np.matrix A)) (g : generator A).

Lemma gen_take_looping arrs num_steps todo k :
  length todo < k ->
  gen_take k (Generator arrs num_steps (Looping todo))
  = Ok (map (window arrs num_steps) todo,
        Generator arrs num_steps Exhausted).
Proof.
  revert k. induction todo as [|b todo IH]; intros k Hk.
  - destruct k; [simpl in Hk; lia|]. reflexivity.
  - destruct k; [simpl in Hk; lia|]. simpl in Hk.
    cbn [gen_take]. unfold gen_next. cbn [g_state gen_resume g_arrs g_num_steps].
    bind_ok. cbv iota.
    rewrite IH by lia. reflexivity.
Qed.

(** Draining is what repeated [next] yields. *)
Lemma gen_take_drain arrs num_steps ws :
  gen_drain (get_batch arrs num_steps) = Ok ws ->
  forall k, length ws < k ->
  gen_take k (get_batch arrs num_steps)
  = Ok (ws, Generator arrs num_steps Exhausted).
Proof.
  unfold gen_drain, get_batch. cbn [g_state g_arrs g_num_steps].
  intros Hd k Hk.
  destruct (gen_prologue (Generator arrs num_steps Fresh)) as [todo|] eqn:E;
    [|discriminate].
  bind_ok in Hd.
  injection Hd as <-. rewrite length_map in Hk.
  destruct k; [lia|]. cbn [gen_take]. unfold gen_next. cbn [g_state].
  rewrite E. bind_ok.
  destruct todo as [|b todo]; [reflexivity|].
  cbn [gen_resume g_arrs g_num_steps]. cbv beta iota.
  bind_ok. cbv iota.
  simpl in Hk. rewrite gen_take_looping by lia. reflexivity.
Qed.

Lemma gen_take_looping_prefix arrs num_steps todo k ws g :
  gen_take k (Generator arrs num_steps (Looping todo)) = Ok (ws, g) ->
  ws = take k (map (window arrs num_steps) todo).
Proof.
  revert k ws g. induction todo as [|b todo IH]; intros k ws g Hk.
  - destruct k; simpl in Hk; by injection Hk as <- <-.
  - destruct k; [simpl in Hk; by injection Hk as <- <-|].
    cbn [gen_take] in Hk. unfold gen_next in Hk.
    cbn [g_state gen_resume g_arrs g_num_steps] in Hk.
    bind_ok in Hk. cbv iota in Hk.
    destruct (gen_take k _) as [[ws' g']|] eqn:E; [|discriminate].
    bind_ok in Hk. cbv iota in Hk.
    injection Hk as <- <-. simpl. f_equal. by eapply IH.
Qed.

(** However many [next] calls are made, what they yield is a prefix of
    the drained sequence. *)
Lemma gen_take_prefix arrs num_steps all k ws g :
  gen_drain (get_batch arrs num_steps) = Ok all ->
  gen_take k (get_batch arrs num_steps) = Ok (ws, g) ->
  ws = take k all.
Proof.
  unfold gen_drain, get_batch. cbn [g_state g_arrs g_num_steps].
  intros Hd Hk.
  destruct (gen_prologue (Generator arrs num_steps Fresh)) as [todo|] eqn:E;
    [|discriminate].
  bind_ok in Hd.
  injection Hd as <-.
  destruct k; [simpl in Hk; by injection Hk as <- <-|].
  cbn [gen_take] in Hk. unfold gen_next in Hk. cbn [g_state] in Hk.
  rewrite E in Hk. bind_ok in Hk.
  destruct todo as [|b todo].
  - cbn [gen_resume] in Hk. bind_ok in Hk. cbv iota in Hk. by injection Hk as <- <-.
  - cbn [gen_resume g_arrs g_num_steps] in Hk.
    bind_ok in Hk. cbv iota in Hk.
    destruct (gen_take k _) as [[ws' g']|] eqn:E'; [|discriminate].
    bind_ok in Hk. cbv iota in Hk.
    injection Hk as <- <-. simpl. f_equal.
    by eapply gen_take_looping_prefix.
Qed.

Lemma full_window_fits C num_steps b :
  b < C / num_steps -> (b + 1) * num_steps <= C.
Proof.
  intros Hb. pose proof (Nat.Div0.mul_div_le C num_steps). nia.
Qed.

Lemma cols_shape (m : Np.matrix A) a b :
  b <= Np.ncols m ->
  Np.shape (Np.cols (Z.of_nat a) (Z.of_nat b) m) = (Np.nrows m, b - a).
Proof.
  intros Hb. unfold Np.shape, Np.cols. simpl.
  rewrite !clamp_index_nat. f_equal. lia.
Qed.

Lemma at2_cols (m : Np.matrix A) a b i j :
  j < b - a ->
  Np.at2 (Np.cols (Z.of_nat a) (Z.of_nat b) m) i j = Np.at2 m i (a + j).
Proof.
  intros Hj. unfold Np.at2, Np.cols. simpl.
  rewrite list_lookup_fmap. destruct (Np.rows m !! i) as [r|]; [|done].
  simpl. by rewrite slice_nat, lookup_take_lt, lookup_drop.
Qed.

(** Claim C6.  On matrices [X], [Y] of shape [(B, C)] and a window width
    [num_steps >= 1], [get_batch] yields exactly [floor(C / num_steps)]
    windows, each a pair of [B x num_steps] matrices, the [b]-th one
    holding columns [[b*num_steps, (b+1)*num_steps)]; a second call yields
    the same sequence from the start, however far the first was
    consumed. *)
Theorem get_batch_windows (X Y : Np.matrix A) (B C num_steps : nat) :
  Np.wf X -> Np.wf Y -> Np.shape X = (B, C) -> Np.shape Y = (B, C) ->
  0 < num_steps ->
  let n_batches := C / num_steps in
  let windows := map (window [X; Y] num_steps) (seq 0 n_batches) in
  (* the run of [next] calls: [n_batches] yields, then [StopIteration] *)
  gen_take (n_batches + 1) (get_batch [X; Y] num_steps)
    = Ok (windows, Generator [X; Y] num_steps Exhausted) /\
  gen_drain (get_batch [X; Y] num_steps) = Ok windows /\
  length windows = n_batches /\
  (* the [b]-th yield is columns [b*num_steps, (b+1)*num_steps) *)
  (forall b, b < n_batches ->
     exists x y,
       windows !! b = Some [x; y] /\
       Np.wf x /\ Np.wf y /\
       Np.shape x = (B, num_steps) /\ Np.shape y = (B, num_steps) /\
       forall i j, j < num_steps ->
         Np.at2 x i j = Np.at2 X i (b * num_steps + j) /\
         Np.at2 y i j = Np.at2 Y i (b * num_steps + j)) /\
  (* a second call starts over, however far the first one was consumed *)
  (forall k ws g, gen_take k (get_batch [X; Y] num_steps) = Ok (ws, g) ->
     gen_drain (get_batch [X; Y] num_steps) = Ok windows /\
     ws = take k windows).
Proof.
  intros HX HY EX EY Hpos n_batches windows.
  injection EX as EXr EXc. injection EY as EYr EYc.
  assert (Hdrain : gen_drain (get_batch [X; Y] num_steps) = Ok windows).
  { unfold gen_drain, get_batch, gen_prologue, Py.int_div.
    cbn [g_state g_arrs g_num_steps].
    rewrite decide_False by lia. rewrite EXc. reflexivity. }
  assert (Hlen : length windows = n_batches).
  { subst windows. by rewrite length_map, length_seq. }
  assert (Htake : forall k, length windows < k ->
            gen_take k (get_batch [X; Y] num_steps)
            = Ok (windows, Generator [X; Y] num_steps Exhausted)).
  { by apply gen_take_drain. }
  split_and!; [apply Htake; lia|done|done| |].
  - intros b Hb. pose proof (full_window_fits _ _ _ Hb) as Hfit.
    eexists _, _. split_and!.
    + subst windows. rewrite list_lookup_fmap, lookup_seq_lt by done.
      reflexivity.
    + by apply wf_cols.
    + by apply wf_cols.
    + rewrite cols_shape by lia. f_equal; lia.
    + rewrite cols_shape by lia. f_equal; lia.
    + intros i j Hj. rewrite !at2_cols by lia. done.
  - intros k ws g Hk. split; [done|]. by eapply gen_take_prefix.
Qed.

End GetBatchFacts.

Lemma get_batch_windows_witness :
  let X := Np.Matrix 2 5 [[0; 1; 2; 3; 4]; [5; 6; 7; 8; 9]] in
  let Y := Np.Matrix 2 5 [[1; 2; 3; 4; 5]; [6; 7; 8; 9; 0]] in
  gen_drain (get_batch [X; Y] 2)
  = Ok [ [Np.Matrix 2 2 [[0; 1]; [5; 6]]; Np.Matrix 2 2 [[1; 2]; [6; 7]]];
         [Np.Matrix 2 2 [[2; 3]; [7; 8]]; Np.Matrix 2 2 [[3; 4]; [8; 9]]] ].
Proof.
  intros X Y.
  refine (proj1 (proj2 (get_batch_windows X Y 2 5 2 _ _ _ _ _))).
  - split; [reflexivity|]. repeat constructor.
  - split; [reflexivity|]. repeat constructor.
  - reflexivity.
  - reflexivity.
  - lia.
Defined.

(** ** The vocabulary *)

Lemma mapM_result_Ok {X Y : Type} (f : X -> result Y) (l : list X) :
  (forall x, x ∈ l -> exists y, f x = Ok y) ->
  exists k, mapM f l = Ok k /\ Forall2 (fun x y => f x = Ok y) l k.
Proof.
  induction l as [|x l IH]; intros Hf.
  - exists []. split; [reflexivity|constructor].
  - destruct (Hf x) as [y Hy]; [left|].
    destruct IH as (k & Hk & Hall); [intros x' Hx'; apply Hf; by right|].
    exists (y :: k). split; [|by constructor].
    cbn [mapM]. rewrite Hy. change (Ok ?a ≫= ?g) with (g a). cbv beta.
    fold (mapM f l). rewrite Hk. reflexivity.
Qed.

Section VocabularyFacts.
Context `{Countable Sym}.
Implicit Types (text : list Sym) (s : Sym) (v : vocabulary Sym).

Lemma enumerate_set_lookup (X : gset Sym) i s :
  enumerate_set X !! i = Some (i, s) <-> elements X !! i = Some s.
Proof.
  unfold enumerate_set. rewrite lookup_zip_Some. split; [tauto|].
  intros Hi. split; [|done].
  apply lookup_seq. split; [done|]. by eapply lookup_lt_Some.
Qed.

Lemma enumerate_set_elem (X : gset Sym) i s :
  (i, s) ∈ enumerate_set X <-> elements X !! i = Some s.
Proof.
  rewrite <- enumerate_set_lookup. split.
  - intros [j Hj]%list_elem_of_lookup.
    pose proof Hj as Hj'. unfold enumerate_set in Hj'.
    apply lookup_zip_Some in Hj' as [Hseq _].
    apply lookup_seq in Hseq as [-> _]. done.
  - intros Hi. apply list_elem_of_lookup. eauto.
Qed.

Lemma int_to_vocab_lookup (X : gset Sym) i :
  (list_to_map (enumerate_set X) : gmap nat Sym) !! i = elements X !! i.
Proof.
  assert (Hfst : (enumerate_set X).*1 = seq 0 (length (elements X))).
  { unfold enumerate_set. apply fst_zip. by rewrite length_seq. }
  destruct (elements X !! i) as [s|] eqn:E.
  - apply elem_of_list_to_map; [rewrite Hfst; apply NoDup_seq|].
    by apply enumerate_set_elem.
  - apply not_elem_of_list_to_map_1. rewrite Hfst, elem_of_seq.
    apply lookup_ge_None in E. lia.
Qed.

Lemma vocab_to_int_lookup (X : gset Sym) s i :
  (list_to_map ((fun ic => (ic.2, ic.1)) <$> enumerate_set X) : gmap Sym nat)
    !! s = Some i
  <-> elements X !! i = Some s.
Proof.
  rewrite <- elem_of_list_to_map.
  - rewrite list_elem_of_fmap. rewrite <- enumerate_set_elem. split.
    + intros ([j c] & [= -> ->] & Hin). done.
    + intros Hin. exists (i, s). done.
  - rewrite <- list_fmap_compose.
    replace (fst ∘ (fun ic : nat * Sym => (ic.2, ic.1))) with (@snd nat Sym)
      by done.
    unfold enumerate_set. rewrite snd_zip by (by rewrite length_seq).
    apply NoDup_elements.
Qed.

(** The build always goes through, and this is the vocabulary it
    returns. *)
Lemma build_vocabulary_Ok text :
  exists cs,
    build_vocabulary text
    = Ok (Vocabulary (list_to_set text)
            (list_to_map ((fun ic => (ic.2, ic.1))
                            <$> enumerate_set (list_to_set text)))
            (list_to_map (enumerate_set (list_to_set text))) cs) /\
    Forall2 (fun s i => elements (list_to_set text : gset Sym) !! i = Some s)
            text cs.
Proof.
  unfold build_vocabulary.
  set (d := list_to_map _ : gmap Sym nat).
  destruct (mapM_result_Ok (dict_get d) text) as (cs & Hcs & Hall).
  { intros s Hs.
    assert (s ∈ elements (list_to_set text : gset Sym)) as Hel
      by (by rewrite elem_of_elements, elem_of_list_to_set).
    apply list_elem_of_lookup in Hel as [i Hi].
    exists i. unfold dict_get.
    assert (d !! s = Some i) as -> by (by apply vocab_to_int_lookup).
    done. }
  exists cs. rewrite Hcs. split; [reflexivity|].
  eapply Forall2_impl; [exact Hall|].
  intros s i Hget. unfold dict_get in Hget.
  destruct (d !! s) as [j|] eqn:E; [|discriminate].
  injection Hget as ->. by apply vocab_to_int_lookup.
Qed.

(** Claim C8.  The built vocabulary maps every observed symbol to an id
    below [V = len(vocab)] that maps back to it, every id below [V] to an
    observed symbol that maps back to it, and nothing else: a bijection
    between the observed symbols and [[0, V)]. *)
Theorem vocabulary_round_trip text :
  exists v,
    build_vocabulary text = Ok v /\
    let V := size (vocab v) in
    (forall s, s ∈ vocab v <-> s ∈ text) /\
    (* encoding then decoding an observed symbol gives it back *)
    (forall s, s ∈ text ->
       exists i, vocab_to_int v !! s = Some i /\ i < V /\
                 int_to_vocab v !! i = Some s) /\
    (* decoding then encoding an id below V gives it back *)
    (forall i, i < V ->
       exists s, int_to_vocab v !! i = Some s /\ s ∈ text /\
                 vocab_to_int v !! s = Some i) /\
    (* nothing else is mapped *)
    (forall s i, vocab_to_int v !! s = Some i <-> int_to_vocab v !! i = Some s) /\
    (forall s, is_Some (vocab_to_int v !! s) <-> s ∈ text) /\
    (forall i, is_Some (int_to_vocab v !! i) <-> i < V) /\
    (* the token stream decodes to the corpus *)
    Forall2 (fun s i => int_to_vocab v !! i = Some s) text (chars v).
Proof.
  destruct (build_vocabulary_Ok text) as (cs & Hb & Hcs).
  eexists. split; [exact Hb|]. cbn [vocab vocab_to_int int_to_vocab chars].
  set (X := list_to_set text : gset Sym).
  assert (Hin : forall s, s ∈ X <-> s ∈ text)
    by (intros s; subst X; apply elem_of_list_to_set).
  assert (Hiff : forall s i,
    (list_to_map ((fun ic => (ic.2, ic.1)) <$> enumerate_set X)
       : gmap Sym nat) !! s = Some i <->
    (list_to_map (enumerate_set X) : gmap nat Sym) !! i = Some s).
  { intros s i. by rewrite vocab_to_int_lookup, int_to_vocab_lookup. }
  assert (Hlt : forall i,
    is_Some ((list_to_map (enumerate_set X) : gmap nat Sym) !! i)
    <-> i < size X).
  { intros i. rewrite int_to_vocab_lookup. apply lookup_lt_is_Some. }
  assert (Hdec : forall i s,
    (list_to_map (enumerate_set X) : gmap nat Sym) !! i = Some s -> s ∈ text).
  { intros i s Hi. rewrite int_to_vocab_lookup in Hi. apply Hin.
    apply elem_of_elements. apply list_elem_of_lookup. eauto. }
  split_and!.
  - done.
  - intros s Hs. apply Hin, elem_of_elements in Hs.
    apply list_elem_of_lookup in Hs as [i Hi].
    exists i. split_and!.
    + by apply vocab_to_int_lookup.
    + apply Hlt. rewrite int_to_vocab_lookup. eauto.
    + by rewrite int_to_vocab_lookup.
  - intros i Hi. apply Hlt in Hi as [s Hs].
    exists s. split_and!; [done|by eapply Hdec|by apply Hiff].
  - done.
  - intros s. split.
    + intros [i Hi]. apply Hiff in Hi. by eapply Hdec.
    + intros Hs. apply Hin, elem_of_elements in Hs.
      apply list_elem_of_lookup in Hs as [i Hi].
      exists i. by apply vocab_to_int_lookup.
  - done.
  - eapply Forall2_impl; [exact Hcs|]. intros s i Hi.
    by rewrite int_to_vocab_lookup.
Qed.

(** Claim C9, as amended.  The vocabulary build never fails; on the
    empty corpus it returns the empty vocabulary and an empty token
    stream. *)
Theorem build_vocabulary_never_fails text :
  (exists v, build_vocabulary text = Ok v) /\
  build_vocabulary (@nil Sym) = Ok (Vocabulary ∅ ∅ ∅ []).
Proof.
  split.
  - destruct (build_vocabulary_Ok text) as (cs & Hb & _). eauto.
  - reflexivity.
Qed.

End VocabularyFacts.

(** Claim C9 as stated fails: the build of the empty corpus raises
    nothing. *)
Lemma build_vocabulary_empty_counterexample :
  ~ (exists e, build_vocabulary (@nil ascii) = Raise e).
Proof. intros [e He]. discriminate. Qed.

(** ** The training loop *)

(** Claim C1.  Three training batches per epoch, two epochs, a
    validation pass every second iteration.  The validation pass assigns
    the same variable [new_state] that carries the training state, so the
    batch that follows it is fed the state the validation pass ended in
    (100 and more here), not the final state of the batch before it. *)
Theorem train_validation_clobbers_state :
  let train_x := Np.Matrix 1 6 [[0; 1; 2; 0; 1; 2]] in
  let train_y := Np.Matrix 1 6 [[1; 2; 0; 1; 2; 0]] in
  let val_x := Np.Matrix 1 2 [[1; 2]] in
  let val_y := Np.Matrix 1 2 [[2; 0]] in
  exists s,
    train (counting_graph 3) train_x train_y val_x val_y 2 512 2 2 tt = Ok s /\
    map (fun ev => (ev_epoch ev, ev_batch ev, ev_fed ev, ev_final ev))
        (s_events s)
    = [(0, 1, 0, 1); (0, 2, 1, 2); (0, 3, 100, 101);
       (1, 1, 0, 1); (1, 2, 100, 101); (1, 3, 101, 102)] /\
    map ck_iteration (s_saved s) = [2; 4; 6] /\
    ~ state_carried (s_events s).
Proof.
  intros train_x train_y val_x val_y.
  destruct (train (counting_graph 3) train_x train_y val_x val_y 2 512 2 2 tt)
    as [s|e] eqn:E; vm_compute in E; [|discriminate].
  injection E as <-. eexists. split; [reflexivity|].
  split; [reflexivity|]. split; [reflexivity|].
  intros Hc. specialize (Hc 1 _ _ eq_refl eq_refl eq_refl). discriminate.
Qed.

Lemma for_each_indexed {X St : Type} (I : nat -> St -> Prop)
    (body : X -> St -> result St) (xs : list X) :
  forall k0 s s',
    I k0 s ->
    (forall k x s s', xs !! k = Some x -> I (k0 + k) s -> body x s = Ok s' ->
                      I (S (k0 + k)) s') ->
    for_each xs s body = Ok s' ->
    I (k0 + length xs) s'.
Proof.
  induction xs as [|x xs IH]; intros k0 s s' HI Hstep Hrun.
  - injection Hrun as <-. by rewrite Nat.add_0_r.
  - cbn [for_each] in Hrun.
    destruct (body x s) as [s1|] eqn:E; [|discriminate].
    bind_ok in Hrun.
    simpl. rewrite <- Nat.add_succ_comm.
    apply (IH (S k0) s1 s'); [| |done].
    + specialize (Hstep 0 x s s1). rewrite Nat.add_0_r in Hstep.
      by apply Hstep.
    + intros k y t t' Hk. rewrite Nat.add_succ_comm. by apply Hstep.
Qed.

Section TrainingFacts.
Context {State Params : Type}.
Variable model : graph State Params.
Variables train_x train_y val_x val_y : Np.matrix nat.
Variables num_steps lstm_size epochs save_every_n : nat.
Implicit Types (s : session State Params) (ev : train_event State).

Lemma train_batch_invariant n_batches iterations e k w s s' :
  epoch_invariant model save_every_n iterations e k s ->
  train_batch model val_x val_y num_steps lstm_size save_every_n
              e n_batches iterations (1 + k, w) s = Ok s' ->
  epoch_invariant model save_every_n iterations e (S k) s'.
Proof.
  intros (Hcar & Hep & Hfirst & Hzero & Hlast) Hrun.
  unfold train_batch in Hrun.
  destruct (unpack_pair w) as [[x y]|]; [|discriminate].
  bind_ok in Hrun. cbv iota zeta in Hrun.
  destruct (run_train model (s_params s) (s_new_state s) x y)
    as [[batch_loss new_state] params].
  set (ev := TrainEvent e (1 + k) (e * n_batches + (1 + k))
                        (s_new_state s) new_state) in *.
  assert (Hcar' : state_carried_unless_validated save_every_n iterations
                    (s_events s ++ [ev])).
  { intros i ev1 ev2 H1 H2 Hsame Hndue.
    destruct (decide (S i < length (s_events s))) as [Hlt|Hge].
    - rewrite lookup_app_l in H1, H2 by lia. by eapply Hcar.
    - pose proof (lookup_lt_Some _ _ _ H2) as Hi2.
      rewrite length_app in Hi2. simpl in Hi2.
      assert (S i = length (s_events s)) as Hi by lia.
      rewrite lookup_app_l in H1 by lia.
      rewrite lookup_app_r, Hi, Nat.sub_diag in H2 by lia.
      injection H2 as <-. simpl in *.
      apply Hlast; [|exact Hsame|exact Hndue].
      rewrite last_lookup. rewrite <- Hi. exact H1. }
  assert (Hep' : Forall (fun ev => ev_epoch ev <= e) (s_events s ++ [ev])).
  { apply Forall_app. split; [done|]. by repeat constructor. }
  assert (Hfirst' : Forall (fun ev => ev_batch ev = 1 ->
                              ev_fed ev = initial_state model)
                           (s_events s ++ [ev])).
  { apply Forall_app. split; [done|]. repeat constructor.
    simpl. intros Hb. apply Hzero. lia. }
  destruct (Py.modulo _ save_every_n) as [r|] eqn:Er; [|discriminate].
  bind_ok in Hrun.
  assert (Hr : r = (e * n_batches + (1 + k)) mod save_every_n).
  { unfold Py.modulo in Er. destruct (decide (save_every_n = 0));
      [discriminate|by injection Er as <-]. }
  destruct (decide (r = 0 \/ e * n_batches + (1 + k) = iterations))
    as [Hdue|Hndue].
  - destruct (validation_pass _ _ _ _ _) as [[vstate val_loss]|];
      [|discriminate].
    bind_ok in Hrun. cbv iota in Hrun.
    injection Hrun as <-. unfold epoch_invariant. simpl.
    split_and!; [done..|lia|].
    intros ev' Hev' _ Hnd. rewrite last_snoc in Hev'. injection Hev' as <-.
    exfalso. apply Hnd.
    assert (Hvd : validation_due save_every_n iterations
                    (e * n_batches + (1 + k)))
      by (unfold validation_due; by rewrite <- Hr).
    exact Hvd.
  - injection Hrun as <-. unfold epoch_invariant. simpl.
    split_and!; [done..|lia|].
    intros ev' Hev' _ _. rewrite last_snoc in Hev'. by injection Hev' as <-.
Qed.

Lemma train_epoch_invariant n_batches iterations e s s' :
  run_invariant model save_every_n iterations e s ->
  train_epoch model train_x train_y val_x val_y num_steps lstm_size
              save_every_n n_batches iterations e s = Ok s' ->
  run_invariant model save_every_n iterations (S e) s'.
Proof.
  intros (Hcar & Hep & Hfirst) Hrun. unfold train_epoch in Hrun.
  destruct (gen_drain _) as [batches|]; [|discriminate].
  bind_ok in Hrun.
  apply (for_each_indexed (epoch_invariant model save_every_n iterations e) _ _ 0) in Hrun.
  - destruct Hrun as (Hcar' & Hep' & Hfirst' & _).
    split_and!; [done| |done].
    eapply Forall_impl; [exact Hep'|]. simpl. lia.
  - unfold epoch_invariant. simpl. split_and!; [done| |done|done|].
    + eapply Forall_impl; [exact Hep|]. simpl. lia.
    + intros ev Hev He. apply last_Some_elem_of in Hev.
      pose proof (proj1 (Forall_forall _ _) Hep ev Hev) as Hlt.
      simpl in Hlt. lia.
  - intros k [b w] t t' Hk Ht Hbody.
    unfold enumerate_from in Hk. rewrite list_lookup_imap in Hk.
    destruct (batches !! k) as [w'|]; [|discriminate].
    injection Hk as <- <-. simpl in Ht |- *.
    by eapply train_batch_invariant.
Qed.

(** In every run that completes: the first batch of every epoch is fed
    the zero state, and a batch is fed the final state of the batch
    before it whenever no validation pass ran in between. *)
Lemma train_state_carry (init_params : Params) s :
  train model train_x train_y val_x val_y num_steps lstm_size epochs
        save_every_n init_params = Ok s ->
  let iterations := Np.ncols train_x / num_steps * epochs in
  Forall (fun ev => ev_batch ev = 1 -> ev_fed ev = initial_state model)
         (s_events s) /\
  state_carried_unless_validated save_every_n iterations (s_events s).
Proof.
  intros Hrun iterations. unfold train, Py.int_div in Hrun.
  destruct (decide (num_steps = 0)); [discriminate|].
  bind_ok in Hrun. cbv zeta in Hrun.
  fold iterations in Hrun.
  apply (for_each_indexed (run_invariant model save_every_n iterations) _ _ 0) in Hrun.
  - destruct Hrun as (Hcar & _ & Hfirst). done.
  - unfold run_invariant. simpl. split_and!; [|done..].
    intros i ev1 ev2 H1. by rewrite lookup_nil in H1.
  - intros k e t t' Hk Ht Hbody. apply lookup_seq in Hk as [-> _].
    simpl in Ht |- *. by eapply train_epoch_invariant.
Qed.

End TrainingFacts.

(** The schedule of the notebook itself, 178 batches per epoch, 10
    epochs and a checkpoint every 200 iterations (windows shrunk to one
    column): iteration 200 falls on batch 22 of the second epoch, and
    batch 23 is fed the state the validation pass ended in. *)
Example train_notebook_schedule :
  let train_x := Np.Matrix 1 178 [seq 0 178] in
  let val_x := Np.Matrix 1 19 [seq 0 19] in
  (s ← train (counting_graph 3) train_x train_x val_x val_x 1 512 10 200 tt;
   Ok (length (s_events s), s_events s !! 199, s_events s !! 200,
       map ck_iteration (s_saved s)))
  = Ok (1780,
        Some (TrainEvent 1 22 200 21 22),
        Some (TrainEvent 1 23 201 1900 1901),
        [200; 400; 600; 800; 1000; 1200; 1400; 1600; 1780]).
Proof. vm_compute. reflexivity. Qed.

(** ** The sampler *)

Section SampleFacts.
Context {State Params Ckpt : Type}.
Variable voc : vocabulary ascii.
Variable build_rnn : nat -> nat -> graph State Params.
Variable restore : Ckpt -> result Params.
Variable argsort : list Qc -> list nat.

Lemma pick_and_append_samples u (s s' : sampler (State:=State)) :
  pick_and_append voc argsort u s = Ok s' ->
  (exists ch, sm_samples s' = sm_samples s ++ [ch]) /\ is_Some (sm_c s').
Proof.
  unfold pick_and_append. intros Hp.
  destruct (from_option Ok (Raise NameError) (sm_preds s)) as [preds|];
    [|discriminate].
  bind_ok in Hp.
  destruct (pick_top_n _ _ _ _ _ _) as [[c h]|]; [|discriminate].
  bind_ok in Hp. cbv iota in Hp.
  destruct (dict_get _ c) as [ch|]; [|discriminate].
  bind_ok in Hp.
  injection Hp as <-. simpl. eauto.
Qed.

Lemma feed_symbol_samples (model : graph State Params) (params : Params) i
    (s : sampler (State:=State)) :
  sm_samples (feed_symbol model params i s) = sm_samples s.
Proof.
  unfold feed_symbol. destruct (run_preds _ _ _ _) as [pv st].
  by destruct (heap_alloc _ _).
Qed.

Lemma prime_loop_samples (model : graph State Params) (params : Params)
    prime (s s' : sampler (State:=State)) :
  for_each prime s
    (fun c s => i ← dict_get (vocab_to_int voc) c;
                Ok (feed_symbol model params i s)) = Ok s' ->
  sm_samples s' = sm_samples s.
Proof.
  revert s. induction prime as [|c prime IH]; intros s Hf.
  - by injection Hf as <-.
  - cbn [for_each] in Hf.
    destruct (dict_get _ c) as [i|]; [|discriminate].
    bind_ok in Hf.
    bind_ok in Hf.
    apply IH in Hf. by rewrite Hf, feed_symbol_samples.
Qed.

Lemma generate_loop_samples (model : graph State Params) (params : Params)
    rng k0 steps
    (s s' : sampler (State:=State)) :
  for_each steps s
    (fun i s => c ← from_option Ok (Raise NameError) (sm_c s);
                let s := feed_symbol model params c s in
                pick_and_append voc argsort (rng (k0 + i)) s) = Ok s' ->
  exists gen, sm_samples s' = sm_samples s ++ gen /\
              length gen = length steps.
Proof.
  revert s. induction steps as [|i steps IH]; intros s Hf.
  - injection Hf as <-. exists []. by rewrite app_nil_r.
  - cbn [for_each] in Hf.
    destruct (from_option Ok (Raise NameError) (sm_c s)) as [c|];
      [|discriminate].
    bind_ok in Hf. cbv zeta in Hf.
    destruct (pick_and_append _ _ _ _) as [s1|] eqn:E1; [|discriminate].
    bind_ok in Hf.
    apply pick_and_append_samples in E1 as [[ch Hch] _].
    rewrite feed_symbol_samples in Hch.
    apply IH in Hf as (gen & Hgen & Hlen).
    exists (ch :: gen). split; [|simpl; by rewrite Hlen].
    by rewrite Hgen, Hch, <- app_assoc.
Qed.

(** Whatever [prime] is passed, a run that returns gives ["Far"]
    followed by [n_samples + 1] generated symbols. *)
Lemma sample_output checkpoint n_samples lstm_size vocab_size prime rng out :
  sample voc build_rnn restore argsort checkpoint n_samples lstm_size
         vocab_size prime rng = Ok out ->
  exists gen,
    out = ("Far" ++ string_of_list_ascii gen)%string /\
    length gen = n_samples + 1.
Proof.
  unfold sample. intros Hs.
  destruct (restore checkpoint) as [params|]; [|discriminate].
  bind_ok in Hs. cbv zeta in Hs.
  destruct (for_each (list_ascii_of_string "Far") _ _) as [s1|] eqn:E1;
    [|discriminate].
  bind_ok in Hs.
  apply prime_loop_samples in E1. cbn [sm_samples] in E1.
  destruct (pick_and_append _ _ _ s1) as [s2|] eqn:E2; [|discriminate].
  bind_ok in Hs.
  apply pick_and_append_samples in E2 as [[ch Hch] _].
  destruct (for_each (seq 0 n_samples) s2 _) as [s3|] eqn:E3; [|discriminate].
  bind_ok in Hs.
  injection Hs as <-.
  apply (generate_loop_samples _ _ rng 1) in E3 as (gen & Hgen & Hlen).
  rewrite length_seq in Hlen.
  exists (ch :: gen). split; [|simpl; lia].
  rewrite Hgen, Hch, E1. reflexivity.
Qed.

End SampleFacts.

(** Claim C4.  Called with [prime = "The"] and [n_samples = 2], [sample]
    returns six symbols, not five, and they begin with ["Far"], not with
    ["The"]: the first statement of the function overwrites [prime], and
    one symbol is drawn before the loop of [n_samples] draws starts. *)
Theorem sample_ignores_prime_and_overshoots :
  let voc := vocabulary_of "The Far side" in
  let rng := fun k => Q2Qc (Z.of_nat k # 4) in
  exists out,
    sample voc (fun V _ => counting_graph V) (fun _ : unit => Ok tt)
           insertion_argsort tt 2 512 10 "The" rng = Ok out /\
    String.length out = 6 /\
    String.length "The" + 2 = 5 /\
    String.prefix "The" out = false /\
    String.prefix "Far" out = true.
Proof.
  intros voc rng.
  destruct (sample voc _ _ _ tt 2 512 10 "The" rng) as [out|e] eqn:E;
    vm_compute in E; [|discriminate].
  injection E as <-. eexists. split; [reflexivity|].
  repeat split.
Qed.

(** ** Sums, cumulative sums and the categorical draw *)

Section Numerics.
Implicit Types (l p q : list Qc) (x y s u acc : Qc).
Local Open Scope Qc_scope.

Lemma sum_nonneg l : Forall (fun x => 0 <= x) l -> 0 <= NpNum.sum l.
Proof.
  induction 1 as [|x l Hx _ IH]; simpl; [done|].
  by apply Qcplus_nonneg_nonneg.
Qed.

Lemma sum_ge_item l k x :
  Forall (fun x => 0 <= x) l -> l !! k = Some x -> x <= NpNum.sum l.
Proof.
  intros Hl. revert k. induction Hl as [|y l Hy Hl IH]; intros k Hk.
  - by rewrite lookup_nil in Hk.
  - destruct k as [|k]; simpl in *.
    + injection Hk as ->. rewrite <- (Qcplus_0_r x) at 1.
      apply Qcplus_le_mono_l. by apply sum_nonneg.
    + apply Qcle_trans with (NpNum.sum l); [by eapply IH|].
      rewrite <- (Qcplus_0_l (NpNum.sum l)) at 1.
      by apply Qcplus_le_mono_r.
Qed.

Lemma sum_zero l : Forall (fun x => x = 0) l -> NpNum.sum l = 0.
Proof.
  induction 1 as [|x l -> _ IH]; simpl; [done|]. rewrite IH. ring.
Qed.

Lemma sum_map_div l s :
  NpNum.sum (map (fun x => x / s) l) = NpNum.sum l / s.
Proof.
  induction l as [|x l IH]; simpl.
  - unfold Qcdiv. ring.
  - rewrite IH. unfold Qcdiv. ring.
Qed.

Lemma Qcdiv_nonneg x s : 0 <= x -> 0 < s -> 0 <= x / s.
Proof.
  intros Hx Hs. unfold Qcdiv.
  rewrite <- (Qcmult_0_l (/ s)). apply Qcmult_le_mono_nonneg_r; [|done].
  apply Qclt_le_weak. by apply Qcinv_pos.
Qed.

Lemma Qcdiv_self s : s <> 0 -> s / s = 1.
Proof. intros Hs. unfold Qcdiv. by apply Qcmult_inv_r. Qed.

Lemma Qcdiv_1 x : x / 1 = x.
Proof. unfold Qcdiv. change (/ 1) with 1. ring. Qed.

(** *** Cumulative sums *)

Lemma length_cumsum_from acc l :
  length (NpNum.cumsum_from acc l) = length l.
Proof. revert acc. induction l; intros; simpl; [done|]. by rewrite IHl. Qed.

Lemma last_cumsum_from acc l :
  l <> [] -> last (NpNum.cumsum_from acc l) = Some (acc + NpNum.sum l).
Proof.
  revert acc. induction l as [|x l IH]; intros acc Hne; [done|].
  destruct l as [|y l].
  - simpl. f_equal. ring.
  - change (NpNum.cumsum_from acc (x :: y :: l))
      with ((acc + x) :: NpNum.cumsum_from (acc + x) (y :: l)).
    rewrite last_cons, IH by done. simpl. f_equal. ring.
Qed.

(** Past a value above [u], a running sum of non-negative terms never
    comes back to [u] or below. *)
Lemma filter_cumsum_above acc l u :
  Forall (fun x => 0 <= x) l -> u < acc ->
  filter (fun x => x <= u) (NpNum.cumsum_from acc l) = [].
Proof.
  intros Hl. revert acc. induction Hl as [|x l Hx Hl IH]; intros acc Hacc.
  - done.
  - simpl. assert (u < acc + x).
    { apply Qclt_le_trans with acc; [done|].
      rewrite <- (Qcplus_0_r acc) at 1. by apply Qcplus_le_mono_l. }
    rewrite filter_cons_False by (by apply Qclt_not_le).
    by apply IH.
Qed.

(** The index found by the search carries positive probability. *)
Lemma searchsorted_cumsum acc l u :
  Forall (fun x => 0 <= x) l -> acc <= u -> u < acc + NpNum.sum l ->
  exists x,
    l !! NpNum.searchsorted_right (NpNum.cumsum_from acc l) u = Some x /\
    0 < x.
Proof.
  unfold NpNum.searchsorted_right.
  intros Hl. revert acc. induction Hl as [|x l Hx Hl IH]; intros acc Hlo Hhi.
  - simpl in Hhi. rewrite Qcplus_0_r in Hhi.
    by apply Qclt_not_le in Hhi.
  - simpl. destruct (decide (acc + x <= u)) as [Hle|Hgt].
    + rewrite filter_cons_True by done. simpl.
      apply IH; [done|]. simpl in Hhi. by rewrite <- Qcplus_assoc.
    + rewrite filter_cons_False by done.
      apply Qcnot_le_lt in Hgt.
      rewrite filter_cumsum_above by done. simpl.
      exists x. split; [done|].
      apply (Qcplus_lt_mono_l 0 x acc). rewrite Qcplus_0_r.
      by apply Qcle_lt_trans with u.
Qed.

(** A successful draw, under the conditions [np.random.choice] checks. *)
Lemma random_choice_Ok (a : nat) q u :
  (0 < length q)%nat -> length q = a -> Forall (fun x => 0 <= x) q ->
  NpNum.sum q = 1 -> 0 <= u -> u < 1 ->
  exists c x, NpNum.random_choice a q u = Ok c /\ q !! c = Some x /\ 0 < x.
Proof.
  intros Hpos Hlen Hnn Hsum Hu0 Hu1. unfold NpNum.random_choice.
  rewrite decide_False by lia. rewrite decide_True by done.
  rewrite decide_True by done. rewrite decide_True by done.
  unfold NpNum.cumsum. rewrite last_cumsum_from by (by destruct q).
  rewrite Qcplus_0_l, Hsum. simpl.
  rewrite (map_ext _ id) by (intros; apply Qcdiv_1). rewrite map_id.
  destruct (searchsorted_cumsum 0 q u) as (x & Hx & Hx0);
    [done|done|by rewrite Qcplus_0_l, Hsum|].
  eauto.
Qed.

End Numerics.

(** ** Index arrays: [argsort] and in-place item assignment *)

Section SetItems.
Implicit Types (a : list Qc) (idx : list nat) (v : Qc).

Lemma set_items_length idx v a :
  length (foldl (fun a i => <[i:=v]> a) a idx) = length a.
Proof.
  revert a. induction idx as [|i idx IH]; intros a; simpl; [done|].
  by rewrite IH, length_insert.
Qed.

Lemma set_items_lookup_other idx v a k :
  k ∉ idx -> foldl (fun a i => <[i:=v]> a) a idx !! k = a !! k.
Proof.
  revert a. induction idx as [|i idx IH]; intros a Hk; simpl; [done|].
  apply not_elem_of_cons in Hk as [Hne Hk].
  rewrite IH by done. by apply list_lookup_insert_ne.
Qed.

Lemma set_items_lookup_set idx v a k :
  k ∈ idx -> k < length a ->
  foldl (fun a i => <[i:=v]> a) a idx !! k = Some v.
Proof.
  revert a. induction idx as [|i idx IH]; intros a Hk Hlt; simpl.
  - by apply elem_of_nil in Hk.
  - destruct (decide (k ∈ idx)) as [Hin|Hnin].
    + apply IH; [done|]. by rewrite length_insert.
    + apply elem_of_cons in Hk as [->|]; [|done].
      rewrite set_items_lookup_other by done.
      by apply list_lookup_insert_eq.
Qed.

End SetItems.

Section Argsort.
Implicit Types (p : list Qc) (idx : list nat).
Local Open Scope Qc_scope.

Lemma item_lookup p k x : p !! k = Some x -> item p k = x.
Proof. unfold item. by intros ->. Qed.

Lemma lookup_item p k : (k < length p)%nat -> p !! k = Some (item p k).
Proof.
  intros Hk. apply lookup_lt_is_Some in Hk as [x Hx].
  by rewrite (item_lookup _ _ _ Hx).
Qed.

Lemma clamp_index_neg len (top_n : nat) :
  (1 <= top_n)%nat ->
  Py.clamp_index len (- Z.of_nat top_n) = (len - top_n)%nat.
Proof.
  intros Hn. unfold Py.clamp_index.
  destruct (Z.ltb_spec (- Z.of_nat top_n) 0); lia.
Qed.

(** [idx[:-top_n]] and [idx[-top_n:]] of an argsort: the indices that
    are cut and the indices that are kept. *)
Lemma argsort_cut p idx (top_n : nat) :
  is_argsort p idx ->
  let low := Py.slice_to (- Z.of_nat top_n) idx in
  let top := Py.slice_from (- Z.of_nat top_n) idx in
  Forall (fun i => (i < length p)%nat) low /\
  NoDup top /\
  (forall k, (k < length p)%nat -> k ∈ low \/ k ∈ top) /\
  (forall k, k ∈ low -> k ∉ top) /\
  (forall k, k ∈ top -> (k < length p)%nat) /\
  (forall i j, i ∈ low -> j ∈ top -> item p i <= item p j) /\
  ((1 <= top_n <= length p)%nat -> length top = top_n) /\
  ((1 <= top_n)%nat -> (0 < length p)%nat ->
     exists jmax, jmax ∈ top /\
       forall k, (k < length p)%nat -> item p k <= item p jmax).
Proof.
  intros [Hperm Hsorted] low top.
  assert (Hidx : idx = low ++ top) by (symmetry; apply slice_to_from).
  assert (Hlen : length idx = length p)
    by (by rewrite Hperm, length_seq).
  assert (Hnd : NoDup idx) by (rewrite Hperm; apply NoDup_seq).
  assert (Hel : forall k, k ∈ idx <-> (k < length p)%nat).
  { intros k. rewrite Hperm, elem_of_seq. lia. }
  rewrite Hidx in Hnd. apply NoDup_app in Hnd as (_ & Hdisj & Hndt).
  split_and!.
  - apply Forall_forall. intros i Hi. apply Hel. rewrite Hidx.
    apply elem_of_app. by left.
  - done.
  - intros k Hk. apply Hel in Hk. rewrite Hidx in Hk.
    by apply elem_of_app in Hk.
  - done.
  - intros k Hk. apply Hel. rewrite Hidx. apply elem_of_app. by right.
  - intros i j Hi Hj. rewrite Hidx in Hsorted.
    by apply (StronglySorted_app_1_elem_of _ _ _ _ _ Hsorted).
  - intros Hn. subst top. rewrite length_slice_from, Hlen.
    rewrite clamp_index_neg by lia. lia.
  - intros Hn Hp.
    destruct (last idx) as [jmax|] eqn:Hlast;
      [|apply last_None in Hlast; rewrite Hlast in Hlen; simpl in Hlen; lia].
    exists jmax. split.
    + subst top. unfold Py.slice_from.
      rewrite clamp_index_neg, Hlen by done.
      apply list_elem_of_lookup. exists (top_n `min` length p - 1)%nat.
      rewrite lookup_drop. rewrite last_lookup, Hlen in Hlast.
      rewrite <- Hlast. f_equal. lia.
    + intros k Hk. apply Hel in Hk.
      apply last_Some in Hlast as [front Hfront].
      rewrite Hfront in Hk, Hsorted.
      apply elem_of_app in Hk as [Hk|Hk].
      * apply (StronglySorted_app_1_elem_of _ _ _ _ _ Hsorted Hk).
        apply list_elem_of_singleton. done.
      * apply list_elem_of_singleton in Hk as ->. apply Qcle_refl.
Qed.

(** *** The insertion sort is an argsort *)

Lemma insert_index_perm p i l : insert_index p i l ≡ₚ i :: l.
Proof.
  induction l as [|j l IH]; simpl; [done|].
  destruct (decide _); [done|]. rewrite IH. apply perm_swap.
Qed.

Lemma insert_index_sorted p i l :
  StronglySorted (fun i j => item p i <= item p j) l ->
  StronglySorted (fun i j => item p i <= item p j) (insert_index p i l).
Proof.
  induction 1 as [|j l Hs IH Hall]; simpl.
  - repeat constructor.
  - destruct (decide _) as [Hle|Hgt].
    + constructor; [by constructor|]. constructor; [done|].
      eapply Forall_impl; [exact Hall|]. intros k Hk. simpl in Hk.
      by apply Qcle_trans with (item p j).
    + constructor; [done|]. rewrite insert_index_perm.
      constructor; [|done].
      apply Qclt_le_weak. by apply Qcnot_le_lt.
Qed.

Lemma insertion_argsort_spec p : is_argsort p (insertion_argsort p).
Proof.
  unfold is_argsort, insertion_argsort.
  generalize (seq 0 (length p)) as l. intros l.
  induction l as [|i l [IHp IHs]]; simpl.
  - split; [done|constructor].
  - split; [by rewrite insert_index_perm, IHp|by apply insert_index_sorted].
Qed.

End Argsort.

(** ** [pick_top_n] *)

(** [l[:-top_n]] is empty when [top_n] is 0 or at least [len(l)]. *)
Lemma slice_to_neg_nil {X : Type} (l : list X) (top_n : nat) :
  (top_n = 0 \/ length l <= top_n)%nat ->
  Py.slice_to (- Z.of_nat top_n) l = [].
Proof.
  intros Hn. unfold Py.slice_to.
  replace (Py.clamp_index (length l) (- Z.of_nat top_n)) with 0%nat;
    [apply take_0|].
  unfold Py.clamp_index. destruct (Z.ltb_spec (- Z.of_nat top_n) 0); lia.
Qed.

Section PickTopNFacts.
Variable argsort : list Qc -> list nat.
Implicit Types (h : heap) (pv q : list Qc) (preds : loc).
Local Open Scope Qc_scope.

(** The array left in the caller's buffer: the cut entries zeroed. *)
Lemma truncated_lookup pv (top_n : nat) :
  is_argsort pv (argsort pv) ->
  let low := Py.slice_to (- Z.of_nat top_n) (argsort pv) in
  let top := Py.slice_from (- Z.of_nat top_n) (argsort pv) in
  let pv' := foldl (fun a i => <[i:=0]> a) pv low in
  length pv' = length pv /\
  (forall j, (j < length pv)%nat -> j ∉ top -> pv' !! j = Some 0) /\
  (forall i, i ∈ top -> pv' !! i = pv !! i) /\
  (Forall (fun x => 0 <= x) pv -> Forall (fun x => 0 <= x) pv').
Proof.
  intros Hsort low top pv'.
  destruct (argsort_cut pv (argsort pv) top_n Hsort)
    as (Hlow & _ & Hcover & Hdisj & _).
  fold low top in Hlow, Hcover, Hdisj.
  split_and!.
  - apply set_items_length.
  - intros j Hj Hnt. apply set_items_lookup_set; [|done].
    by destruct (Hcover j Hj).
  - intros i Hi. apply set_items_lookup_other. intros Hl.
    by apply (Hdisj i).
  - intros Hnn. apply Forall_lookup. intros k x Hk.
    destruct (decide (k ∈ low)) as [Hin|Hnin].
    + subst pv'. rewrite set_items_lookup_set in Hk; [by injection Hk as <-|done|].
      apply lookup_lt_Some in Hk. by rewrite set_items_length in Hk.
    + subst pv'. rewrite set_items_lookup_other in Hk by done.
      by eapply (Forall_lookup_1 _ _ _ _ Hnn).
Qed.

(** On a one-entry array the squeezed view is 0-dimensional and the item
    assignment raises. *)
Lemma pick_top_n_scalar preds (vocab_size top_n : nat) u h pv :
  h !! preds = Some pv -> length pv = 1%nat ->
  pick_top_n argsort preds vocab_size top_n u h = Raise IndexError.
Proof.
  intros Hh Hlen. unfold pick_top_n, heap_read. rewrite Hh. bind_ok.
  unfold NpNum.squeeze, NpNum.set_items. cbn [NpNum.nd_ndim NpNum.nd_data].
  rewrite (decide_True (P := length pv = 1%nat)) by done.
  by rewrite decide_True by done.
Qed.

Lemma pick_top_n_Ok_length preds (vocab_size top_n : nat) u h pv r :
  h !! preds = Some pv ->
  pick_top_n argsort preds vocab_size top_n u h = Ok r ->
  length pv <> 1%nat.
Proof.
  intros Hh Hrun Hlen.
  by rewrite (pick_top_n_scalar preds vocab_size top_n u h pv Hh Hlen) in Hrun.
Qed.

(** The call, step by step, on a store that holds [pv] at [preds], [pv]
    of any length but 1. *)
Lemma pick_top_n_run preds (vocab_size top_n : nat) u h pv :
  h !! preds = Some pv -> is_argsort pv (argsort pv) ->
  length pv <> 1%nat ->
  let low := Py.slice_to (- Z.of_nat top_n) (argsort pv) in
  let pv' := foldl (fun a i => <[i:=0]> a) pv low in
  let q := map (fun x => x / NpNum.sum pv') pv' in
  let h1 := <[preds:=pv']> h in
  pick_top_n argsort preds vocab_size top_n u h
  = c ← NpNum.random_choice vocab_size q u;
    Ok (c, <[fresh (dom h1):=q]> h1).
Proof.
  intros Hh Hsort Hlen low pv' q h1.
  destruct (argsort_cut pv (argsort pv) top_n Hsort) as (Hlow & _).
  unfold pick_top_n, heap_read. rewrite Hh.
  bind_ok.
  unfold NpNum.squeeze, NpNum.set_items. cbn [NpNum.nd_ndim NpNum.nd_data].
  rewrite (decide_False (P := length pv = 1%nat)) by done.
  rewrite (decide_False (P := 1%nat = 0%nat)) by done.
  rewrite decide_True by done.
  bind_ok.
  subst h1 q pv' low. rewrite lookup_insert_eq.
  bind_ok.
  unfold heap_alloc. rewrite lookup_insert_eq.
  bind_ok. reflexivity.
Qed.

(** On a probability distribution over [vocab_size >= 2] symbols and
    [1 <= top_n <= vocab_size], with a uniform variate in [[0, 1)],
    [pick_top_n] returns; the symbol it returns is one of the [top_n]
    indices [argsort] ranks highest, and each of those is at least as
    probable as every index left out; the distribution the draw is made
    from is zero outside those indices, is the input divided by one
    positive normaliser on them, and sums to 1. *)
Theorem pick_top_n_selects_top preds (vocab_size top_n : nat) u h pv :
  h !! preds = Some pv -> is_argsort pv (argsort pv) ->
  length pv = vocab_size -> (2 <= vocab_size)%nat ->
  Forall (fun x => 0 <= x) pv -> NpNum.sum pv = 1 ->
  (1 <= top_n <= vocab_size)%nat -> 0 <= u -> u < 1 ->
  let top := Py.slice_from (- Z.of_nat top_n) (argsort pv) in
  exists c h' ptr q s,
    pick_top_n argsort preds vocab_size top_n u h = Ok (c, h') /\
    (* the symbol returned is one of the [top_n] most probable *)
    c ∈ top /\ length top = top_n /\ NoDup top /\
    (forall i j, i ∈ top -> (j < vocab_size)%nat -> j ∉ top ->
       item pv j <= item pv i) /\
    (* the distribution it is drawn from *)
    h' !! ptr = Some q /\ length q = vocab_size /\
    (forall j, (j < vocab_size)%nat -> j ∉ top -> q !! j = Some 0) /\
    0 < s /\
    (forall i, i ∈ top -> q !! i = Some (item pv i / s)) /\
    NpNum.sum q = 1 /\
    0 < item q c.
Proof.
  intros Hh Hsort Hlen HV Hnn Hsum Htop Hu0 Hu1 top.
  set (low := Py.slice_to (- Z.of_nat top_n) (argsort pv)).
  set (pv' := foldl (fun a i => <[i:=0]> a) pv low).
  set (s := NpNum.sum pv').
  set (q := map (fun x => x / s) pv').
  destruct (argsort_cut pv (argsort pv) top_n Hsort)
    as (Hlow & Hnd & Hcover & Hdisj & Hbound & Hdom & Hsize & Hmax).
  fold low top in Hlow, Hnd, Hcover, Hdisj, Hbound, Hdom, Hsize, Hmax.
  destruct (truncated_lookup pv top_n Hsort) as (Hlen' & Hzero & Hkeep & Hnn').
  fold low top pv' in Hlen', Hzero, Hkeep, Hnn'.
  specialize (Hnn' Hnn).
  assert (Hpos : (0 < length pv)%nat) by lia.
  (* the largest entry is positive and survives the cut *)
  destruct Hmax as (jmax & Hjtop & Hjmax); [lia|done|].
  assert (Hjpos : 0 < item pv jmax).
  { apply Qcnot_le_lt. intros Hle.
    assert (NpNum.sum pv = 0) as Hz; [|by rewrite Hz in Hsum].
    apply sum_zero, Forall_lookup. intros k x Hk.
    apply Qcle_antisym; [|by eapply (Forall_lookup_1 _ _ _ _ Hnn)].
    rewrite <- (item_lookup _ _ _ Hk).
    apply Qcle_trans with (item pv jmax); [|done].
    apply Hjmax. by eapply lookup_lt_Some. }
  assert (Hs : 0 < s).
  { apply Qclt_le_trans with (item pv jmax); [done|].
    apply sum_ge_item with jmax; [done|].
    rewrite Hkeep by done. apply lookup_item. by apply Hbound. }
  assert (Hq_len : length q = vocab_size)
    by (subst q; by rewrite length_map, Hlen').
  assert (Hq_nn : Forall (fun x => 0 <= x) q).
  { subst q. apply Forall_fmap. eapply Forall_impl; [exact Hnn'|].
    intros x Hx. simpl. by apply Qcdiv_nonneg. }
  assert (Hq_sum : NpNum.sum q = 1).
  { subst q. rewrite sum_map_div. apply Qcdiv_self.
    intros Hz. fold s in Hz. rewrite Hz in Hs. by apply Qclt_not_le in Hs. }
  destruct (random_choice_Ok vocab_size q u) as (c & x & Hc & Hqc & Hx);
    [lia|done..|].
  exists c, (<[fresh (dom (<[preds:=pv']> h)):=q]> (<[preds:=pv']> h)),
         (fresh (dom (<[preds:=pv']> h))), q, s.
  assert (Hc_lt : (c < vocab_size)%nat)
    by (rewrite <- Hq_len; by eapply lookup_lt_Some).
  assert (Hc_top : c ∈ top).
  { destruct (Hcover c) as [Hcl|]; [lia| |done]. exfalso.
    assert (pv' !! c = Some 0) as Hz
      by (apply Hzero; [lia|by apply Hdisj]).
    subst q. rewrite list_lookup_fmap, Hz in Hqc. simpl in Hqc.
    injection Hqc as <-. unfold Qcdiv in Hx. rewrite Qcmult_0_l in Hx.
    by apply Qclt_not_le in Hx. }
  split_and!.
  - rewrite (pick_top_n_run preds vocab_size top_n u h pv Hh Hsort) by lia.
    fold low pv' s q. rewrite Hc. reflexivity.
  - done.
  - apply Hsize. lia.
  - done.
  - intros i j Hi Hj Hjn. apply Hdom; [|done].
    destruct (Hcover j) as [|]; [lia|done|done].
  - apply lookup_insert_eq.
  - done.
  - intros j Hj Hjn. subst q. rewrite list_lookup_fmap, Hzero by (done || lia).
    simpl. f_equal. unfold Qcdiv. ring.
  - done.
  - intros i Hi. subst q. rewrite list_lookup_fmap, Hkeep by done.
    rewrite lookup_item by (by apply Hbound). done.
  - done.
  - by rewrite (item_lookup _ _ _ Hqc).
Qed.

(** Claim C10.  [np.squeeze] returns a view, so the item assignment
    writes into the caller's array: after a call that returns, the array
    at [preds] holds zero at every index outside the kept
    [argsort(p)[-top_n:]] and its old value on them (it is not
    renormalised).  It differs from the input exactly when one of the cut
    entries was non-zero: with [top_n] at or above the number of entries,
    or [top_n = 0], nothing is cut and the array is left as it was.  No
    other array changes. *)
Theorem pick_top_n_mutates_input preds (vocab_size top_n : nat) u h pv c h' :
  h !! preds = Some pv -> is_argsort pv (argsort pv) ->
  pick_top_n argsort preds vocab_size top_n u h = Ok (c, h') ->
  let top := Py.slice_from (- Z.of_nat top_n) (argsort pv) in
  exists pv',
    (* what the caller's array holds after the call *)
    h' !! preds = Some pv' /\ length pv' = length pv /\
    (forall j, (j < length pv)%nat -> j ∉ top -> pv' !! j = Some 0) /\
    (forall i, i ∈ top -> pv' !! i = pv !! i) /\
    (* it is no longer the input exactly when a cut entry was non-zero *)
    (h' !! preds <> h !! preds <->
       exists j, (j < length pv)%nat /\ (j ∉ top) /\ item pv j <> 0) /\
    (* which cannot be when nothing is cut *)
    ((top_n = 0 \/ length pv <= top_n)%nat -> h' !! preds = h !! preds) /\
    (* every other array of the caller is untouched *)
    (forall l, l <> preds -> is_Some (h !! l) -> h' !! l = h !! l).
Proof.
  intros Hh Hsort Hrun top.
  pose proof (pick_top_n_Ok_length _ _ _ _ _ _ _ Hh Hrun) as Hlen1.
  rewrite (pick_top_n_run preds vocab_size top_n u h pv Hh Hsort Hlen1)
    in Hrun.
  destruct (truncated_lookup pv top_n Hsort) as (Hlen' & Hzero & Hkeep & _).
  fold top in Hzero, Hkeep.
  assert (Hall : (top_n = 0 \/ length pv <= top_n)%nat ->
            foldl (fun a i => <[i:=0]> a) pv
              (Py.slice_to (- Z.of_nat top_n) (argsort pv)) = pv).
  { intros Hn. rewrite slice_to_neg_nil; [done|].
    destruct Hsort as [Hperm _]. by rewrite Hperm, length_seq. }
  set (pv' := foldl (fun a i => <[i:=0]> a) pv
                (Py.slice_to (- Z.of_nat top_n) (argsort pv))) in *.
  set (h1 := <[preds:=pv']> h) in *.
  destruct (NpNum.random_choice _ _ _) as [c'|]; [|discriminate].
  bind_ok in Hrun.
  injection Hrun as -> <-.
  assert (Hfresh : forall l, is_Some (h1 !! l) -> fresh (dom h1) <> l).
  { intros l Hl Heq. rewrite <- Heq in Hl.
    apply elem_of_dom in Hl. by apply is_fresh in Hl. }
  assert (Hpreds : (<[fresh (dom h1):=
                      map (fun x => x / NpNum.sum pv') pv']> h1) !! preds
                   = Some pv').
  { rewrite lookup_insert_ne; [apply lookup_insert_eq|].
    apply Hfresh. subst h1. rewrite lookup_insert_eq. eauto. }
  exists pv'. split_and!; [done..| | |].
  - rewrite Hpreds, Hh. split.
    + intros Hne.
      destruct (decide (Exists (fun j => (j ∉ top) /\ item pv j <> 0)
                          (seq 0 (length pv)))) as [Hex|Hnex].
      * apply Exists_exists in Hex as (j & Hj & Hjn & Hjz).
        apply elem_of_seq in Hj. exists j. split_and!; [lia|done..].
      * exfalso. apply Hne. f_equal.
        apply not_Exists_Forall in Hnex; [|intros j; apply _].
        apply list_eq. intros k.
        destruct (decide (k < length pv)%nat) as [Hk|Hk].
        -- destruct (decide (k ∈ top)) as [Hin|Hnin]; [by apply Hkeep|].
           rewrite Hzero by done. rewrite lookup_item by done. f_equal.
           assert (Hkz : ~ ((k ∉ top) /\ item pv k <> 0)).
           { apply (proj1 (Forall_forall _ _) Hnex).
             apply elem_of_seq. lia. }
           destruct (decide (item pv k = 0)) as [->|Hz]; [done|].
           by destruct Hkz.
        -- rewrite !(proj2 (lookup_ge_None _ _)) by lia. done.
    + intros (j & Hj & Hjn & Hne) [= Heq].
      specialize (Hzero j Hj Hjn). rewrite Heq in Hzero.
      by rewrite (item_lookup _ _ _ Hzero) in Hne.
  - intros Hn. rewrite Hpreds, Hh. f_equal. by apply Hall.
  - intros l Hl Hsome. rewrite lookup_insert_ne.
    + subst h1. by rewrite lookup_insert_ne.
    + apply Hfresh. subst h1. by rewrite lookup_insert_ne.
Qed.

End PickTopNFacts.

(** Claim C3.  The distribution over a single symbol, [preds = [[1.0]]]
    with [top_n = 1], is one over [V = 1] symbols with [top_n] in
    [[1, V]], and symbol 0 is its top symbol.  There [np.squeeze]
    removes both axes, the view is 0-dimensional, and the item
    assignment of [pick_top_n] raises [IndexError]: no symbol is
    selected, whatever [vocab_size], [top_n], [argsort] and the variate
    are. *)
Theorem pick_top_n_single_symbol_raises (argsort : list Qc -> list nat)
    (vocab_size top_n : nat) (u : Qc) :
  pick_top_n argsort 0 vocab_size top_n u {[ 0 := [1%Qc] ]}
  = Raise IndexError.
Proof.
  apply (pick_top_n_scalar argsort 0 vocab_size top_n u _ [1%Qc]).
  - apply lookup_singleton_eq.
  - reflexivity.
Qed.

Lemma pick_top_n_selects_top_witness :
  let pv := [Q2Qc (1 # 10); Q2Qc (4 # 10); Q2Qc (2 # 10); Q2Qc (3 # 10)] in
  let h : heap := {[ 0 := pv ]} in
  exists c h',
    pick_top_n insertion_argsort 0 4 2 (Q2Qc (6 # 10)) h = Ok (c, h') /\
    c ∈ [3; 1].
Proof.
  intros pv h.
  destruct (pick_top_n_selects_top insertion_argsort 0 4 2 (Q2Qc (6 # 10)) h pv)
    as (c & h' & ptr & q & s & Hrun & Hc & _).
  - reflexivity.
  - apply insertion_argsort_spec.
  - reflexivity.
  - lia.
  - repeat constructor; by vm_compute.
  - apply Qc_is_canon. reflexivity.
  - lia.
  - by vm_compute.
  - by vm_compute.
  - exists c, h'. split; [exact Hrun|exact Hc].
Defined.

Lemma pick_top_n_mutates_input_witness :
  let pv := [Q2Qc (1 # 10); Q2Qc (4 # 10); Q2Qc (2 # 10); Q2Qc (3 # 10)] in
  let h : heap := {[ 0 := pv ]} in
  match pick_top_n insertion_argsort 0 4 2 (Q2Qc (6 # 10)) h with
  | Ok (c, h') =>
      exists pv',
        h' !! 0 = Some pv' /\ pv' !! 0 = Some 0%Qc /\ pv' !! 2 = Some 0%Qc /\
        pv' !! 1 = Some (Q2Qc (4 # 10)) /\ pv' !! 3 = Some (Q2Qc (3 # 10)) /\
        h' !! 0 <> h !! 0
  | Raise _ => False
  end.
Proof.
  intros pv h.
  destruct (pick_top_n insertion_argsort 0 4 2 (Q2Qc (6 # 10)) h)
    as [[c h']|e] eqn:E.
  - destruct (pick_top_n_mutates_input insertion_argsort 0 4 2
                (Q2Qc (6 # 10)) h pv c h')
      as (pv' & Hpv' & _ & Hzero & Hkeep & Hchanged & _).
    + reflexivity.
    + apply insertion_argsort_spec.
    + exact E.
    + assert (Hnot : forall j, j <> 3 -> j <> 1 ->
                j ∉ Py.slice_from (- Z.of_nat 2) (insertion_argsort pv)).
      { intros j H3 H1 Hin. apply list_elem_of_In in Hin.
        vm_compute in Hin. intuition. }
      assert (Hin : forall j, j = 3 \/ j = 1 ->
                j ∈ Py.slice_from (- Z.of_nat 2) (insertion_argsort pv)).
      { intros j Hj. apply list_elem_of_In. vm_compute. intuition. }
      exists pv'. split_and!.
      * exact Hpv'.
      * apply Hzero; [simpl; lia|]. apply Hnot; lia.
      * apply Hzero; [simpl; lia|]. apply Hnot; lia.
      * rewrite Hkeep by (apply Hin; lia). reflexivity.
      * rewrite Hkeep by (apply Hin; lia). reflexivity.
      * apply Hchanged. exists 0. split; [simpl; lia|].
        split; [apply Hnot; lia|]. by vm_compute.
  - vm_compute in E. discriminate.
Defined.

Lemma pick_top_n_mutates_input_counterexample :
  let pv := [Q2Qc (1 # 4); Q2Qc (3 # 4)] in
  let h : heap := {[ 0 := pv ]} in
  exists c h',
    pick_top_n insertion_argsort 0 2 5 (Q2Qc (1 # 2)) h = Ok (c, h') /\
    h' !! 0 = h !! 0.
Proof.
  intros pv h. eexists _, _. split; [vm_compute; reflexivity|].
  vm_compute. reflexivity.
Defined.

(** * Further properties of the notebook's code *)

(** ** [split_data] *)

Lemma split_data_exact_multiple_witness :
  split_data [0; 1; 2; 3; 4; 5; 6; 7] 2 2 (Q2Qc (9 # 10)) = Raise ValueError.
Proof.
  apply (split_data_exact_multiple [0; 1; 2; 3; 4; 5; 6; 7] 2 2
           (Q2Qc (9 # 10)) 2).
  - lia.
  - lia.
  - lia.
  - reflexivity.
Defined.

Lemma Py_int_at_least (q : Qc) (n : nat) :
  (Py.Qc_of_nat n <= q)%Qc -> (Z.of_nat n <= Py.int q)%Z.
Proof.
  intros Hn. unfold Py.int.
  unfold Qcle, Py.Qc_of_nat, Qc_of_Z in Hn. simpl in Hn.
  unfold Qle in Hn. simpl in Hn.
  destruct (this q) as [num den]. simpl in *.
  rewrite Z.quot_div_nonneg by lia.
  apply Z.div_le_lower_bound; lia.
Qed.

Section SplitDataMore.
Context {A : Type}.
Implicit Types (chars : list A) (B S : nat) (f : Qc) (m : Np.matrix A).

Lemma at2_cols_from k m i j :
  Np.at2 (Np.cols_from (Z.of_nat k) m) i j = Np.at2 m i (k + j).
Proof.
  unfold Np.at2, Np.cols_from. simpl.
  rewrite list_lookup_fmap. destruct (Np.rows m !! i) as [r|]; [|done].
  simpl. by rewrite slice_from_nat, lookup_drop.
Qed.

(** [split_data] is [split_data_at] at the split index that the exact
    product gives. *)
Lemma split_data_as_at chars B S f :
  split_data chars B S f
  = split_data_at
      (Py.int (Py.Qc_of_nat (length chars / (B * S)) * f)%Qc) chars B S.
Proof.
  unfold split_data, split_data_at, Py.int_div.
  destruct (decide (B * S = 0)); reflexivity.
Qed.

(** The run of [split_data_at] on a stream with a token to spare. *)
Lemma split_data_at_run (split_idx : Z) chars B S :
  0 < B -> 0 < S ->
  let n := length chars / (B * S) in
  let k := (split_idx * Z.of_nat S)%Z in
  let X := Np.Matrix B (n * S)
             (Np.chunks (n * S) B (take (n * (B * S)) chars)) in
  let Y := Np.Matrix B (n * S)
             (Np.chunks (n * S) B (take (n * (B * S)) (drop 1 chars))) in
  n * (B * S) < length chars ->
  split_data_at split_idx chars B S
  = Ok (Np.cols_to k X, Np.cols_to k Y, Np.cols_from k X, Np.cols_from k Y).
Proof.
  intros HB HS n k X Y Hspare.
  unfold split_data_at, Py.int_div. rewrite decide_False by lia.
  bind_ok. fold n. subst k X Y. clearbody n. rewrite slice_to_nat.
  replace (Z.of_nat (n * (B * S)) + 1)%Z
    with (Z.of_nat (n * (B * S) + 1)) by lia.
  change 1%Z with (Z.of_nat 1). rewrite slice_nat.
  replace (n * (B * S) + 1 - 1) with (n * (B * S)) by lia.
  assert (Hx : length (take (n * (B * S)) chars) = B * (n * S))
    by (rewrite length_take; lia).
  assert (Hy : length (take (n * (B * S)) (drop 1 chars)) = B * (n * S))
    by (rewrite length_take, length_drop; lia).
  rewrite (split_Ok (take (n * (B * S)) chars) B (n * S)) by done.
  bind_ok. rewrite stack_chunks by lia. bind_ok.
  rewrite (split_Ok (take (n * (B * S)) (drop 1 chars)) B (n * S)) by done.
  bind_ok. rewrite stack_chunks by lia. bind_ok. reflexivity.
Qed.

(** The run of [split_data] on a stream with a token to spare. *)
Lemma split_data_run chars B S f :
  0 < B -> 0 < S ->
  let n := length chars / (B * S) in
  let k := (Py.int (Py.Qc_of_nat n * f)%Qc * Z.of_nat S)%Z in
  let X := Np.Matrix B (n * S)
             (Np.chunks (n * S) B (take (n * (B * S)) chars)) in
  let Y := Np.Matrix B (n * S)
             (Np.chunks (n * S) B (take (n * (B * S)) (drop 1 chars))) in
  n * (B * S) < length chars ->
  split_data chars B S f
  = Ok (Np.cols_to k X, Np.cols_to k Y, Np.cols_from k X, Np.cols_from k Y).
Proof.
  intros HB HS n k X Y Hspare. rewrite split_data_as_at.
  by apply split_data_at_run.
Qed.

(** Where the stream has a token to spare after the last full batch,
    whatever split index between 0 and [n] the float product
    [int(n_batches*split_frac)] comes to (it lies there for a fraction
    between 0 and 1): all four matrices have [B] rows, the training ones
    [split_idx*S] columns and the validation ones the remaining
    [(n - split_idx)*S]; lane [i] of the validation inputs continues
    lane [i] of the training inputs in the stream, and every target, in
    either partition, is the token that follows its input in the stream.
    So no position of the stream is an input of both partitions. *)
Theorem split_data_targets chars B S (split_idx : nat) :
  0 < B -> 0 < S ->
  let n := length chars / (B * S) in
  split_idx <= n ->
  n * (B * S) < length chars ->
  exists tx ty vx vy,
    split_data_at (Z.of_nat split_idx) chars B S = Ok (tx, ty, vx, vy) /\
    Np.shape tx = (B, split_idx * S) /\ Np.shape ty = (B, split_idx * S) /\
    Np.shape vx = (B, (n - split_idx) * S) /\
    Np.shape vy = (B, (n - split_idx) * S) /\
    (forall i j, i < B -> j < split_idx * S ->
       Np.at2 tx i j = chars !! (i * (n * S) + j) /\
       Np.at2 ty i j = chars !! (i * (n * S) + j + 1) /\
       is_Some (Np.at2 ty i j)) /\
    (forall i j, i < B -> j < (n - split_idx) * S ->
       Np.at2 vx i j = chars !! (i * (n * S) + split_idx * S + j) /\
       Np.at2 vy i j = chars !! (i * (n * S) + split_idx * S + j + 1) /\
       is_Some (Np.at2 vy i j)).
Proof.
  intros HB HS n Hsn Hspare.
  rewrite (split_data_at_run (Z.of_nat split_idx) chars B S HB HS Hspare).
  fold n.
  set (k := (Z.of_nat split_idx * Z.of_nat S)%Z).
  assert (Ek : k = Z.of_nat (split_idx * S)) by (subst k; lia).
  set (X := Np.Matrix B (n * S) _). set (Y := Np.Matrix B (n * S) _).
  assert (HX : Np.wf X) by (apply wf_chunks; rewrite length_take; lia).
  assert (HY : Np.wf Y)
    by (apply wf_chunks; rewrite length_take, length_drop; lia).
  eexists _, _, _, _. split; [reflexivity|].
  rewrite Ek. split_and!.
  - unfold Np.shape. simpl. rewrite clamp_index_nat. f_equal. nia.
  - unfold Np.shape. simpl. rewrite clamp_index_nat. f_equal. nia.
  - unfold Np.shape. simpl. rewrite clamp_index_nat. f_equal. nia.
  - unfold Np.shape. simpl. rewrite clamp_index_nat. f_equal. nia.
  - intros i j Hi Hj. assert (j < n * S) by nia.
    rewrite !at2_cols_to by done. subst X Y.
    rewrite !at2_chunks by done.
    rewrite !lookup_take_lt, lookup_drop by nia.
    replace (1 + (i * (n * S) + j)) with (i * (n * S) + j + 1) by lia.
    split_and!; [done..|]. apply lookup_lt_is_Some. nia.
  - intros i j Hi Hj. assert (split_idx * S + j < n * S) by nia.
    rewrite !at2_cols_from. subst X Y.
    rewrite !at2_chunks by done.
    rewrite !lookup_take_lt, lookup_drop by nia.
    replace (1 + (i * (n * S) + (split_idx * S + j)))
      with (i * (n * S) + split_idx * S + j + 1) by lia.
    replace (i * (n * S) + (split_idx * S + j))
      with (i * (n * S) + split_idx * S + j) by lia.
    split_and!; [done..|]. apply lookup_lt_is_Some. nia.
Qed.

(** A split fraction of 1 or more sends every batch to training: the
    validation matrices have no column, and the validation generator
    yields nothing. *)
Theorem split_data_all_training chars B S f :
  0 < B -> 0 < S -> (1 <= f)%Qc ->
  let n := length chars / (B * S) in
  n * (B * S) < length chars ->
  exists tx ty vx vy,
    split_data chars B S f = Ok (tx, ty, vx, vy) /\
    Np.shape tx = (B, n * S) /\ Np.shape ty = (B, n * S) /\
    vx = Np.Matrix B 0 (replicate B []) /\
    vy = Np.Matrix B 0 (replicate B []) /\
    gen_drain (get_batch [vx; vy] S) = Ok [].
Proof.
  intros HB HS H1 n Hspare.
  rewrite (split_data_run chars B S f HB HS Hspare). fold n. clearbody n.
  assert (Hk : (Z.of_nat n <= Py.int (Py.Qc_of_nat n * f)%Qc)%Z).
  { apply Py_int_at_least.
    rewrite <- (Qcmult_1_r (Py.Qc_of_nat n)) at 1.
    apply Qcmult_le_mono_nonneg_l; [apply Qc_of_nat_nonneg|done]. }
  set (k := (Py.int (Py.Qc_of_nat n * f)%Qc * Z.of_nat S)%Z).
  assert (Hclamp : Py.clamp_index (n * S) k = n * S).
  { unfold Py.clamp_index. destruct (Z.ltb_spec k 0); subst k; nia. }
  assert (Hempty : forall ary : list A,
    n * S * B <= length ary ->
    map (Py.slice_from k) (Np.chunks (n * S) B ary) = replicate B []).
  { intros ary Hlen. apply list_eq. intros i.
    rewrite list_lookup_fmap.
    destruct (decide (i < B)) as [Hi|Hi].
    - rewrite chunks_lookup, lookup_replicate_2 by done. simpl. f_equal.
      unfold Py.slice_from. apply drop_ge.
      rewrite length_take, length_drop.
      assert ((i + 1) * (n * S) <= B * (n * S))
        by (apply Nat.mul_le_mono_r; lia).
      replace ((n * S) `min` (length ary - i * (n * S))) with (n * S) by lia.
      by rewrite Hclamp.
    - rewrite (proj2 (lookup_ge_None _ _))
        by (rewrite length_chunks; lia).
      symmetry. apply lookup_replicate_None. lia. }
  eexists _, _, _, _. split; [reflexivity|]. split_and!.
  - unfold Np.shape. simpl. by rewrite Hclamp.
  - unfold Np.shape. simpl. by rewrite Hclamp.
  - unfold Np.cols_from. simpl. rewrite Hclamp, Nat.sub_diag.
    rewrite Hempty by (rewrite length_take; lia). done.
  - unfold Np.cols_from. simpl. rewrite Hclamp, Nat.sub_diag.
    rewrite Hempty by (rewrite length_take, length_drop; lia). done.
  - unfold gen_drain, get_batch, gen_prologue, Py.int_div. simpl.
    rewrite decide_False by lia. rewrite Hclamp, Nat.sub_diag.
    by rewrite Nat.Div0.div_0_l.
Qed.

(** With a single lane and a stream that is an exact multiple of the
    window width, the call returns, but the last input has no target:
    the target matrices together hold one column less than the input
    matrices. *)
Theorem split_data_single_lane_exact chars S f n :
  0 < S -> 1 <= n -> length chars = n * S ->
  exists tx ty vx vy,
    split_data chars 1 S f = Ok (tx, ty, vx, vy) /\
    Np.ncols tx + Np.ncols vx = n * S /\
    Np.ncols ty + Np.ncols vy = n * S - 1.
Proof.
  intros HS Hn Hlen. unfold split_data, Py.int_div.
  rewrite decide_False by lia. bind_ok.
  replace (1 * S) with S by lia.
  rewrite Hlen, Nat.div_mul by lia. rewrite slice_to_nat.
  replace (Z.of_nat (n * S) + 1)%Z with (Z.of_nat (n * S + 1)) by lia.
  change 1%Z with (Z.of_nat 1). rewrite slice_nat.
  replace (n * S + 1 - 1) with (n * S) by lia.
  assert (Hx : length (take (n * S) chars) = 1 * (n * S))
    by (rewrite length_take; lia).
  assert (Hy : length (take (n * S) (drop 1 chars)) = 1 * (n * S - 1))
    by (rewrite length_take, length_drop; lia).
  rewrite (split_Ok (take (n * S) chars) 1 (n * S)) by (done || lia).
  bind_ok. rewrite stack_chunks by lia. bind_ok.
  rewrite (split_Ok (take (n * S) (drop 1 chars)) 1 (n * S - 1))
    by (done || lia).
  bind_ok. rewrite stack_chunks by lia. bind_ok.
  eexists _, _, _, _. split; [reflexivity|]. simpl.
  set (k := (Py.int (Py.Qc_of_nat n * f)%Qc * Z.of_nat S)%Z).
  pose proof (clamp_index_le (n * S) k).
  pose proof (clamp_index_le (n * S - 1) k). lia.
Qed.

End SplitDataMore.

Lemma split_data_targets_witness :
  exists tx ty vx vy,
    split_data_at 1 [10; 11; 12; 13; 14; 15; 16; 17; 18] 2 2
    = Ok (tx, ty, vx, vy) /\
    Np.shape tx = (2, 2) /\ Np.shape vx = (2, 2) /\
    Np.at2 ty 1 1 = Some 16 /\ Np.at2 vx 1 0 = Some 16 /\
    Np.at2 vy 1 1 = Some 18.
Proof.
  destruct (split_data_targets [10; 11; 12; 13; 14; 15; 16; 17; 18] 2 2 1)
    as (tx & ty & vx & vy & Hrun & Htx & _ & Hvx & _ & Ht & Hv).
  - lia.
  - lia.
  - simpl. lia.
  - simpl. lia.
  - exists tx, ty, vx, vy. split; [exact Hrun|].
    split; [exact Htx|]. split; [exact Hvx|].
    destruct (Ht 1 1) as (_ & Hty & _); [lia|simpl; lia|].
    destruct (Hv 1 0) as (Hvx0 & _); [lia|simpl; lia|].
    destruct (Hv 1 1) as (_ & Hvy & _); [lia|simpl; lia|].
    split; [exact Hty|]. split; [exact Hvx0|exact Hvy].
Defined.

Lemma split_data_all_training_witness :
  exists tx ty vx vy,
    split_data [10; 11; 12; 13; 14; 15; 16; 17; 18] 2 2 1%Qc
    = Ok (tx, ty, vx, vy) /\
    Np.shape tx = (2, 4) /\
    gen_drain (get_batch [vx; vy] 2) = Ok [].
Proof.
  destruct (split_data_all_training [10; 11; 12; 13; 14; 15; 16; 17; 18] 2 2
              1%Qc)
    as (tx & ty & vx & vy & Hrun & Htx & _ & _ & _ & Hval).
  - lia.
  - lia.
  - by vm_compute.
  - simpl. lia.
  - exists tx, ty, vx, vy. split; [exact Hrun|]. split; [exact Htx|exact Hval].
Defined.

Lemma split_data_single_lane_exact_witness :
  exists tx ty vx vy,
    split_data [10; 11; 12; 13; 14; 15] 1 3 (Q2Qc (1 # 2))
    = Ok (tx, ty, vx, vy) /\
    Np.ncols tx + Np.ncols vx = 6 /\
    Np.ncols ty + Np.ncols vy = 5.
Proof.
  apply (split_data_single_lane_exact [10; 11; 12; 13; 14; 15] 3
           (Q2Qc (1 # 2)) 2).
  - lia.
  - lia.
  - reflexivity.
Defined.

(** ** The batch generator *)

Section GetBatchMore.
Context {A : Type}.
Implicit Types (X : Np.matrix A) (others : list (Np.matrix A))
  (g : generator A).

Lemma gen_drain_get_batch X others num_steps :
  0 < num_steps ->
  gen_drain (get_batch (X :: others) num_steps)
  = Ok (map (window (X :: others) num_steps)
            (seq 0 (Np.ncols X / num_steps))).
Proof.
  intros Hpos. unfold gen_drain, get_batch, gen_prologue, Py.int_div.
  cbn [g_state g_arrs g_num_steps]. by rewrite decide_False by lia.
Qed.

Lemma concat_chunks_take each n (ary : list A) :
  concat (Np.chunks each n ary) = take (n * each) ary.
Proof.
  revert ary. induction n as [|n IH]; intros ary.
  - by rewrite take_0.
  - rewrite chunks_S. simpl. by rewrite IH, take_take_drop.
Qed.

(** The windows tile each lane from the left: the rows [i] of the
    successive windows are the successive width-[num_steps] pieces of
    row [i], together its first [n_batches * num_steps] entries; the
    [C mod num_steps] columns left over at the right end are in no
    window. *)
Theorem get_batch_tiles X others (num_steps i : nat) (r : list A) :
  0 < num_steps -> Np.rows X !! i = Some r -> length r = Np.ncols X ->
  let n_batches := Np.ncols X / num_steps in
  exists ws,
    gen_drain (get_batch (X :: others) num_steps) = Ok ws /\
    length ws = n_batches /\
    (fun w => w !! 0 ≫= fun m => Np.rows m !! i) <$> ws
      = Some <$> Np.chunks num_steps n_batches r /\
    concat (Np.chunks num_steps n_batches r) = take (n_batches * num_steps) r /\
    length (take (n_batches * num_steps) r)
      = Np.ncols X - Np.ncols X mod num_steps.
Proof.
  intros Hpos Hr Hlen n_batches.
  rewrite gen_drain_get_batch by done. fold n_batches.
  eexists. split; [reflexivity|]. split_and!.
  - by rewrite length_map, length_seq.
  - unfold Np.chunks. rewrite <- !list_fmap_compose.
    apply list_fmap_ext. intros pos b _. simpl.
    rewrite list_lookup_fmap, Hr. simpl. rewrite slice_nat.
    do 2 f_equal. lia.
  - apply concat_chunks_take.
  - rewrite length_take, Hlen. subst n_batches.
    pose proof (Nat.div_mod_eq (Np.ncols X) num_steps).
    pose proof (Nat.Div0.mul_div_le (Np.ncols X) num_steps). lia.
Qed.

End GetBatchMore.

Lemma get_batch_tiles_witness :
  let X := Np.Matrix 2 5 [[0; 1; 2; 3; 4]; [5; 6; 7; 8; 9]] in
  exists ws,
    gen_drain (get_batch [X] 2) = Ok ws /\
    (fun w => w !! 0 ≫= fun m => Np.rows m !! 1) <$> ws
      = [Some [5; 6]; Some [7; 8]].
Proof.
  intros X.
  destruct (get_batch_tiles X [] 2 1 [5; 6; 7; 8; 9])
    as (ws & Hws & _ & Hrows & _).
  - lia.
  - reflexivity.
  - reflexivity.
  - exists ws. split; [exact Hws|exact Hrows].
Defined.

(** ** From the token stream to the training windows *)

(** [split_data] followed by [get_batch], as the training cell chains
    them, whatever split index between 0 and [n] the float product of
    [split_data] comes to: the generator over the training matrices
    yields exactly [split_idx] windows, which is also the [n_batches] the
    loop computes from [train_x.shape[1]]; window [b] holds, in lane [i],
    the tokens at positions [i*n*S + b*S + j] of the stream, and its
    target window holds the tokens one position further. *)
Theorem training_windows {A : Type} (chars : list A) (B S split_idx : nat) :
  0 < B -> 0 < S ->
  let n := length chars / (B * S) in
  split_idx <= n ->
  n * (B * S) < length chars ->
  exists tx ty vx vy ws,
    split_data_at (Z.of_nat split_idx) chars B S = Ok (tx, ty, vx, vy) /\
    gen_drain (get_batch [tx; ty] S) = Ok ws /\
    length ws = split_idx /\ Np.ncols tx / S = split_idx /\
    forall b, b < split_idx ->
      exists x y,
        ws !! b = Some [x; y] /\
        Np.shape x = (B, S) /\ Np.shape y = (B, S) /\
        forall i j, i < B -> j < S ->
          Np.at2 x i j = chars !! (i * (n * S) + b * S + j) /\
          Np.at2 y i j = chars !! (i * (n * S) + b * S + j + 1).
Proof.
  intros HB HS n Hsn Hspare.
  rewrite (split_data_at_run (Z.of_nat split_idx) chars B S HB HS Hspare).
  fold n.
  set (k := (Z.of_nat split_idx * Z.of_nat S)%Z).
  assert (Ek : k = Z.of_nat (split_idx * S)) by (subst k; lia).
  set (X := Np.Matrix B (n * S) _). set (Y := Np.Matrix B (n * S) _).
  assert (HX : Np.wf X) by (apply wf_chunks; rewrite length_take; lia).
  assert (HY : Np.wf Y)
    by (apply wf_chunks; rewrite length_take, length_drop; lia).
  assert (Hle : split_idx * S <= n * S) by nia.
  assert (Ctx : Np.ncols (Np.cols_to k X) = split_idx * S).
  { rewrite Ek. simpl. rewrite clamp_index_nat. lia. }
  assert (Cty : Np.ncols (Np.cols_to k Y) = split_idx * S).
  { rewrite Ek. simpl. rewrite clamp_index_nat. lia. }
  assert (Hdiv : Np.ncols (Np.cols_to k X) / S = split_idx)
    by (rewrite Ctx; apply Nat.div_mul; lia).
  eexists _, _, _, _, _. split; [reflexivity|].
  rewrite gen_drain_get_batch by done. rewrite Hdiv.
  split; [reflexivity|]. split; [by rewrite length_map, length_seq|].
  split; [done|].
  intros b Hb. eexists _, _. split_and!.
  - rewrite list_lookup_fmap, lookup_seq_lt by done. reflexivity.
  - rewrite cols_shape by (rewrite Ctx; nia). f_equal. lia.
  - rewrite cols_shape by (rewrite Cty; nia). f_equal. lia.
  - intros i j Hi Hj. rewrite !at2_cols by lia.
    change (0 + b) with b. rewrite Ek.
    assert (b * S + j < split_idx * S) by nia.
    rewrite !at2_cols_to by done. subst X Y.
    rewrite !at2_chunks by (done || nia).
    rewrite !lookup_take_lt, lookup_drop by nia.
    split; f_equal; lia.
Qed.

Lemma training_windows_witness :
  exists tx ty vx vy ws,
    split_data_at 1 [10; 11; 12; 13; 14; 15; 16; 17; 18] 2 2
    = Ok (tx, ty, vx, vy) /\
    gen_drain (get_batch [tx; ty] 2) = Ok ws /\
    length ws = 1.
Proof.
  destruct (training_windows [10; 11; 12; 13; 14; 15; 16; 17; 18] 2 2 1)
    as (tx & ty & vx & vy & ws & Hrun & Hws & Hlen & _).
  - lia.
  - lia.
  - simpl. lia.
  - simpl. lia.
  - exists tx, ty, vx, vy, ws. split; [exact Hrun|].
    split; [exact Hws|exact Hlen].
Defined.

(** ** The training loop *)

Lemma train_state_carry_witness :
  let train_x := Np.Matrix 1 6 [[0; 1; 2; 0; 1; 2]] in
  let train_y := Np.Matrix 1 6 [[1; 2; 0; 1; 2; 0]] in
  let val_x := Np.Matrix 1 2 [[1; 2]] in
  let val_y := Np.Matrix 1 2 [[2; 0]] in
  match train (counting_graph 3) train_x train_y val_x val_y 2 512 2 2 tt with
  | Ok s =>
      Forall (fun ev => ev_batch ev = 1 -> ev_fed ev = 0) (s_events s) /\
      state_carried_unless_validated 2 (6 / 2 * 2) (s_events s)
  | Raise _ => False
  end.
Proof.
  intros train_x train_y val_x val_y.
  destruct (train (counting_graph 3) train_x train_y val_x val_y 2 512 2 2 tt)
    as [s|e] eqn:E.
  - exact (train_state_carry (counting_graph 3) train_x train_y val_x val_y
             2 512 2 2 tt s E).
  - vm_compute in E. discriminate.
Defined.

Section TrainingSchedule.
Context {State Params : Type}.
Variable model : graph State Params.
Variables train_x train_y val_x val_y : Np.matrix nat.
Variables num_steps lstm_size epochs save_every_n : nat.
Implicit Types (s : session State Params) (ev : train_event State).

Lemma due_iterations_S iterations upto :
  due_iterations save_every_n iterations (S upto)
  = due_iterations save_every_n iterations upto ++
    (if decide ((S upto) mod save_every_n = 0 \/ S upto = iterations)
     then [S upto] else []).
Proof.
  unfold due_iterations. rewrite seq_S, filter_app. f_equal.
Qed.

Lemma train_batch_schedule n_batches iterations e k w s s' :
  k < n_batches ->
  length (s_events s) = e * n_batches + k ->
  numbered n_batches (s_events s) ->
  map ck_iteration (s_saved s)
    = due_iterations save_every_n iterations (e * n_batches + k) ->
  Forall (fun ck => ck_lstm_size ck = lstm_size) (s_saved s) ->
  train_batch model val_x val_y num_steps lstm_size save_every_n
              e n_batches iterations (1 + k, w) s = Ok s' ->
  length (s_events s') = e * n_batches + S k /\
  numbered n_batches (s_events s') /\
  map ck_iteration (s_saved s')
    = due_iterations save_every_n iterations (e * n_batches + S k) /\
  Forall (fun ck => ck_lstm_size ck = lstm_size) (s_saved s').
Proof.
  intros Hk Hlen Hnum Hsaved Hwidth Hrun. unfold train_batch in Hrun.
  destruct (unpack_pair w) as [[x y]|]; [|discriminate].
  bind_ok in Hrun. cbv iota zeta in Hrun.
  destruct (run_train model (s_params s) (s_new_state s) x y)
    as [[batch_loss new_state] params].
  set (ev := TrainEvent e (1 + k) (e * n_batches + (1 + k))
                        (s_new_state s) new_state) in *.
  assert (Hlen' : length (s_events s ++ [ev]) = e * n_batches + S k)
    by (rewrite length_app; simpl; lia).
  assert (Hnum' : numbered n_batches (s_events s ++ [ev])).
  { intros j ev' Hj.
    destruct (decide (j < length (s_events s))) as [Hlt|Hge].
    - rewrite lookup_app_l in Hj by done. by apply Hnum.
    - pose proof (lookup_lt_Some _ _ _ Hj) as Hj'. rewrite Hlen' in Hj'.
      assert (j = e * n_batches + k) as -> by lia.
      rewrite lookup_app_r, Hlen, Nat.sub_diag in Hj by lia.
      injection Hj as <-.
      assert (Hdiv : (e * n_batches + k) / n_batches = e)
        by (rewrite Nat.div_add_l, Nat.div_small by lia; lia).
      assert (Hmod : (e * n_batches + k) mod n_batches = k)
        by (rewrite Nat.add_comm, Nat.Div0.mod_add; apply Nat.mod_small; lia).
      rewrite Hdiv, Hmod. subst ev. cbn [ev_iteration ev_epoch ev_batch].
      lia. }
  replace (e * n_batches + S k) with (S (e * n_batches + k)) by lia.
  rewrite due_iterations_S, <- Hsaved.
  replace (S (e * n_batches + k)) with (e * n_batches + (1 + k)) by lia.
  destruct (Py.modulo _ save_every_n) as [r|] eqn:Er; [|discriminate].
  bind_ok in Hrun.
  assert (Hr : r = (e * n_batches + (1 + k)) mod save_every_n).
  { unfold Py.modulo in Er. destruct (decide (save_every_n = 0));
      [discriminate|by injection Er as <-]. }
  rewrite <- Hr.
  destruct (decide (r = 0 \/ e * n_batches + (1 + k) = iterations)).
  - destruct (validation_pass _ _ _ _ _) as [[vstate val_loss]|];
      [|discriminate].
    bind_ok in Hrun. cbv iota in Hrun. injection Hrun as <-. simpl.
    split_and!; [lia|done| |].
    + by rewrite map_app.
    + apply Forall_app. split; [done|]. by repeat constructor.
  - injection Hrun as <-. simpl.
    split_and!; [lia|done|by rewrite app_nil_r|done].
Qed.

Lemma train_epoch_schedule iterations e s s' :
  0 < num_steps ->
  let n_batches := Np.ncols train_x / num_steps in
  length (s_events s) = e * n_batches ->
  numbered n_batches (s_events s) ->
  map ck_iteration (s_saved s)
    = due_iterations save_every_n iterations (e * n_batches) ->
  Forall (fun ck => ck_lstm_size ck = lstm_size) (s_saved s) ->
  train_epoch model train_x train_y val_x val_y num_steps lstm_size
              save_every_n n_batches iterations e s = Ok s' ->
  length (s_events s') = S e * n_batches /\
  numbered n_batches (s_events s') /\
  map ck_iteration (s_saved s')
    = due_iterations save_every_n iterations (S e * n_batches) /\
  Forall (fun ck => ck_lstm_size ck = lstm_size) (s_saved s').
Proof.
  intros Hpos n_batches Hlen Hnum Hsaved Hwidth Hrun.
  unfold train_epoch in Hrun.
  rewrite gen_drain_get_batch in Hrun by done. fold n_batches in Hrun.
  bind_ok in Hrun.
  apply (for_each_indexed
           (fun k t =>
              length (s_events t) = e * n_batches + k /\
              numbered n_batches (s_events t) /\
              map ck_iteration (s_saved t)
                = due_iterations save_every_n iterations (e * n_batches + k) /\
              Forall (fun ck => ck_lstm_size ck = lstm_size) (s_saved t))
           _ _ 0) in Hrun.
  - unfold enumerate_from in Hrun.
    rewrite length_imap, length_map, length_seq in Hrun. simpl in Hrun.
    replace (S e * n_batches) with (e * n_batches + n_batches) by lia.
    exact Hrun.
  - simpl. by rewrite !Nat.add_0_r.
  - intros k [b w] t t' Hk (Ht1 & Ht2 & Ht3 & Ht4) Hbody.
    unfold enumerate_from in Hk. rewrite list_lookup_imap in Hk.
    destruct (_ !! k) as [w'|] eqn:Ew; [|discriminate].
    injection Hk as <- <-.
    apply lookup_lt_Some in Ew. rewrite length_map, length_seq in Ew.
    simpl in Ht1, Ht3 |- *.
    by eapply train_batch_schedule.
Qed.

(** In a run that completes, the loop makes [n_batches * epochs]
    training steps, numbered 1, 2, ... with [n_batches] of them to an
    epoch; a checkpoint is written after exactly the iterations that are
    a multiple of [save_every_n] or the last one, in that order, each
    labelled with [lstm_size]; so the last checkpoint is always the one of
    the final iteration. *)
Theorem train_schedule (init_params : Params) s :
  train model train_x train_y val_x val_y num_steps lstm_size epochs
        save_every_n init_params = Ok s ->
  let n_batches := Np.ncols train_x / num_steps in
  let iterations := n_batches * epochs in
  length (s_events s) = iterations /\
  numbered n_batches (s_events s) /\
  map ck_iteration (s_saved s)
    = due_iterations save_every_n iterations iterations /\
  Forall (fun ck => ck_lstm_size ck = lstm_size) (s_saved s) /\
  (0 < iterations -> ck_iteration <$> last (s_saved s) = Some iterations).
Proof.
  intros Hrun n_batches iterations. unfold train, Py.int_div in Hrun.
  destruct (decide (num_steps = 0)); [discriminate|].
  bind_ok in Hrun. cbv zeta in Hrun. fold n_batches iterations in Hrun.
  apply (for_each_indexed
           (fun e t =>
              length (s_events t) = e * n_batches /\
              numbered n_batches (s_events t) /\
              map ck_iteration (s_saved t)
                = due_iterations save_every_n iterations (e * n_batches) /\
              Forall (fun ck => ck_lstm_size ck = lstm_size) (s_saved t))
           _ _ 0) in Hrun.
  - rewrite length_seq in Hrun. simpl in Hrun.
    replace (epochs * n_batches) with iterations in Hrun
      by (subst iterations; lia).
    destruct Hrun as (H1 & H2 & H3 & H4). split_and!; [done..|].
    intros Hpos. rewrite <- fmap_last.
    change (ck_iteration <$> s_saved s) with (map ck_iteration (s_saved s)).
    rewrite H3.
    destruct iterations as [|m]; [lia|].
    rewrite due_iterations_S, decide_True by (by right).
    apply last_snoc.
  - simpl. split_and!; [done| |done|done].
    intros k ev Hk. by rewrite lookup_nil in Hk.
  - intros k e t t' Hk (Ht1 & Ht2 & Ht3 & Ht4) Hbody.
    apply lookup_seq in Hk as [-> _]. simpl in Ht1, Ht3, Hbody |- *.
    eapply train_epoch_schedule; [lia|done..].
Qed.

End TrainingSchedule.

Section TrainingValidationState.
Context {State Params : Type}.
Variable model : graph State Params.
Variables train_x train_y val_x val_y : Np.matrix nat.
Variables num_steps lstm_size epochs save_every_n : nat.
Implicit Types (s : session State Params) (ev : train_event State).

Lemma fed_by_validation_mono saved extra iteration (fed : State) :
  fed_by_validation model val_x val_y num_steps saved iteration fed ->
  fed_by_validation model val_x val_y num_steps (saved ++ extra) iteration fed.
Proof.
  intros (ck & Hin & Hit & Hval). exists ck. split_and!; [|done..].
  apply elem_of_app. by left.
Qed.

Lemma train_batch_validation_state n_batches iterations e k w s s' :
  validation_state_fed model val_x val_y num_steps save_every_n iterations
                       (s_events s) (s_saved s) ->
  Forall (fun ev => ev_epoch ev <= e) (s_events s) ->
  (forall ev, last (s_events s) = Some ev -> ev_epoch ev = e ->
     validation_due save_every_n iterations (ev_iteration ev) ->
     fed_by_validation model val_x val_y num_steps (s_saved s)
                       (ev_iteration ev) (s_new_state s)) ->
  train_batch model val_x val_y num_steps lstm_size save_every_n
              e n_batches iterations (1 + k, w) s = Ok s' ->
  validation_state_fed model val_x val_y num_steps save_every_n iterations
                       (s_events s') (s_saved s') /\
  Forall (fun ev => ev_epoch ev <= e) (s_events s') /\
  (forall ev, last (s_events s') = Some ev -> ev_epoch ev = e ->
     validation_due save_every_n iterations (ev_iteration ev) ->
     fed_by_validation model val_x val_y num_steps (s_saved s')
                       (ev_iteration ev) (s_new_state s')).
Proof.
  intros Hfed Hep Hlast Hrun. unfold train_batch in Hrun.
  destruct (unpack_pair w) as [[x y]|]; [|discriminate].
  bind_ok in Hrun. cbv iota zeta in Hrun.
  destruct (run_train model (s_params s) (s_new_state s) x y)
    as [[batch_loss new_state] params].
  set (ev := TrainEvent e (1 + k) (e * n_batches + (1 + k))
                        (s_new_state s) new_state) in *.
  assert (Hfed' : forall extra,
    validation_state_fed model val_x val_y num_steps save_every_n iterations
                         (s_events s ++ [ev]) (s_saved s ++ extra)).
  { intros extra i ev1 ev2 H1 H2 Hsame Hdue.
    apply fed_by_validation_mono.
    destruct (decide (S i < length (s_events s))) as [Hlt|Hge].
    - rewrite lookup_app_l in H1, H2 by lia. by eapply Hfed.
    - pose proof (lookup_lt_Some _ _ _ H2) as Hi2.
      rewrite length_app in Hi2. simpl in Hi2.
      assert (S i = length (s_events s)) as Hi by lia.
      rewrite lookup_app_l in H1 by lia.
      rewrite lookup_app_r, Hi, Nat.sub_diag in H2 by lia.
      injection H2 as <-.
      apply Hlast; [|exact Hsame|exact Hdue].
      rewrite last_lookup. rewrite <- Hi. exact H1. }
  assert (Hep' : Forall (fun ev => ev_epoch ev <= e) (s_events s ++ [ev])).
  { apply Forall_app. split; [done|]. by repeat constructor. }
  destruct (Py.modulo _ save_every_n) as [r|] eqn:Er; [|discriminate].
  bind_ok in Hrun.
  assert (Hr : r = (e * n_batches + (1 + k)) mod save_every_n).
  { unfold Py.modulo in Er. destruct (decide (save_every_n = 0));
      [discriminate|by injection Er as <-]. }
  destruct (decide (r = 0 \/ e * n_batches + (1 + k) = iterations))
    as [Hdue|Hndue].
  - destruct (validation_pass _ _ _ _ _) as [[vstate val_loss]|] eqn:Ev;
      [|discriminate].
    bind_ok in Hrun. cbv iota in Hrun. injection Hrun as <-.
    cbn [s_events s_saved s_new_state]. split_and!; [apply Hfed'|done|].
    intros ev' Hev' _ _. rewrite last_snoc in Hev'. injection Hev' as <-.
    eexists. split_and!.
    + apply elem_of_app. right. apply list_elem_of_singleton. reflexivity.
    + reflexivity.
    + exact Ev.
  - injection Hrun as <-. cbn [s_events s_saved s_new_state].
    split_and!.
    + rewrite <- (app_nil_r (s_saved s)). apply Hfed'.
    + done.
    + intros ev' Hev' _ Hd. rewrite last_snoc in Hev'. injection Hev' as <-.
      exfalso. apply Hndue. unfold validation_due in Hd.
      subst ev. cbn [ev_iteration] in Hd. by rewrite Hr.
Qed.

Lemma train_epoch_validation_state n_batches iterations e s s' :
  validation_state_fed model val_x val_y num_steps save_every_n iterations
                       (s_events s) (s_saved s) ->
  Forall (fun ev => ev_epoch ev < e) (s_events s) ->
  train_epoch model train_x train_y val_x val_y num_steps lstm_size
              save_every_n n_batches iterations e s = Ok s' ->
  validation_state_fed model val_x val_y num_steps save_every_n iterations
                       (s_events s') (s_saved s') /\
  Forall (fun ev => ev_epoch ev < S e) (s_events s').
Proof.
  intros Hfed Hep Hrun. unfold train_epoch in Hrun.
  destruct (gen_drain _) as [batches|]; [|discriminate].
  bind_ok in Hrun.
  apply (for_each_indexed
           (fun (k : nat) t =>
              validation_state_fed model val_x val_y num_steps save_every_n
                                   iterations (s_events t) (s_saved t) /\
              Forall (fun ev => ev_epoch ev <= e) (s_events t) /\
              (forall ev, last (s_events t) = Some ev -> ev_epoch ev = e ->
                 validation_due save_every_n iterations (ev_iteration ev) ->
                 fed_by_validation model val_x val_y num_steps (s_saved t)
                                   (ev_iteration ev) (s_new_state t)))
           _ _ 0) in Hrun.
  - destruct Hrun as (H1 & H2 & _). split; [done|].
    eapply Forall_impl; [exact H2|]. simpl. lia.
  - cbn [s_events s_saved s_new_state]. split_and!; [done| |].
    + eapply Forall_impl; [exact Hep|]. simpl. lia.
    + intros ev Hev He. apply last_Some_elem_of in Hev.
      pose proof (proj1 (Forall_forall _ _) Hep ev Hev) as Hlt.
      simpl in Hlt. lia.
  - intros k [b w] t t' Hk (Ht1 & Ht2 & Ht3) Hbody.
    unfold enumerate_from in Hk. rewrite list_lookup_imap in Hk.
    destruct (batches !! k) as [w'|]; [|discriminate].
    injection Hk as <- <-. simpl in Hbody.
    by eapply train_batch_validation_state.
Qed.

(** What the batch after a validation pass is fed: whenever a training
    step was followed by a validation pass and another step of the same
    epoch comes next, that step is fed the final state of the validation
    pass (run on the parameters saved in that iteration's checkpoint),
    not the final state of the step before it. *)
Theorem train_validation_state (init_params : Params) s :
  train model train_x train_y val_x val_y num_steps lstm_size epochs
        save_every_n init_params = Ok s ->
  let iterations := Np.ncols train_x / num_steps * epochs in
  validation_state_fed model val_x val_y num_steps save_every_n iterations
                       (s_events s) (s_saved s).
Proof.
  intros Hrun iterations. unfold train, Py.int_div in Hrun.
  destruct (decide (num_steps = 0)); [discriminate|].
  bind_ok in Hrun. cbv zeta in Hrun. fold iterations in Hrun.
  apply (for_each_indexed
           (fun e t =>
              validation_state_fed model val_x val_y num_steps save_every_n
                                   iterations (s_events t) (s_saved t) /\
              Forall (fun ev => ev_epoch ev < e) (s_events t))
           _ _ 0) in Hrun.
  - by destruct Hrun as [? _].
  - cbn [s_events s_saved]. split; [|done].
    intros i ev1 ev2 H1. by rewrite lookup_nil in H1.
  - intros k e t t' Hk (Ht1 & Ht2) Hbody. apply lookup_seq in Hk as [-> _].
    simpl in Ht2, Hbody |- *. by eapply train_epoch_validation_state.
Qed.

End TrainingValidationState.

Lemma train_validation_state_witness :
  let train_x := Np.Matrix 1 6 [[0; 1; 2; 0; 1; 2]] in
  let train_y := Np.Matrix 1 6 [[1; 2; 0; 1; 2; 0]] in
  let val_x := Np.Matrix 1 2 [[1; 2]] in
  let val_y := Np.Matrix 1 2 [[2; 0]] in
  match train (counting_graph 3) train_x train_y val_x val_y 2 512 2 2 tt with
  | Ok s =>
      validation_state_fed (counting_graph 3) val_x val_y 2 2 (6 / 2 * 2)
                           (s_events s) (s_saved s)
  | Raise _ => False
  end.
Proof.
  intros train_x train_y val_x val_y.
  destruct (train (counting_graph 3) train_x train_y val_x val_y 2 512 2 2 tt)
    as [s|e] eqn:E.
  - exact (train_validation_state (counting_graph 3) train_x train_y
             val_x val_y 2 512 2 2 tt s E).
  - vm_compute in E. discriminate.
Defined.

Lemma train_schedule_witness :
  let train_x := Np.Matrix 1 6 [[0; 1; 2; 0; 1; 2]] in
  let train_y := Np.Matrix 1 6 [[1; 2; 0; 1; 2; 0]] in
  let val_x := Np.Matrix 1 2 [[1; 2]] in
  let val_y := Np.Matrix 1 2 [[2; 0]] in
  match train (counting_graph 3) train_x train_y val_x val_y 2 512 2 4 tt with
  | Ok s =>
      length (s_events s) = 6 /\
      map ck_iteration (s_saved s) = [4; 6]
  | Raise _ => False
  end.
Proof.
  intros train_x train_y val_x val_y.
  destruct (train (counting_graph 3) train_x train_y val_x val_y 2 512 2 4 tt)
    as [s|e] eqn:E.
  - destruct (train_schedule (counting_graph 3) train_x train_y val_x val_y
                2 512 2 4 tt s E) as (Hlen & _ & Hsaved & _).
    split; [exact Hlen|exact Hsaved].
  - vm_compute in E. discriminate.
Defined.

Section TrainingSaveNever.
Context {State Params : Type}.
Variable model : graph State Params.
Variables train_x train_y val_x val_y : Np.matrix nat.
Variables num_steps lstm_size epochs : nat.
Implicit Types (s : session State Params).

Lemma train_batch_save_every_0 e n_batches iterations b b' s :
  train_batch model val_x val_y num_steps lstm_size 0
              e n_batches iterations
              (b, window [train_x; train_y] num_steps b') s
  = Raise ZeroDivisionError.
Proof.
  unfold train_batch, window. cbn [map unpack_pair]. bind_ok. cbv iota zeta.
  destruct (run_train model (s_params s) (s_new_state s) _ _)
    as [[batch_loss new_state] params].
  unfold Py.modulo. by rewrite decide_True by done.
Qed.

Lemma train_epoch_save_every_0 n_batches iterations e s :
  0 < num_steps -> num_steps <= Np.ncols train_x ->
  train_epoch model train_x train_y val_x val_y num_steps lstm_size 0
              n_batches iterations e s
  = Raise ZeroDivisionError.
Proof.
  intros Hpos Hcols. unfold train_epoch.
  rewrite gen_drain_get_batch by done. bind_ok.
  pose proof (Nat.div_str_pos _ _ (conj Hpos Hcols)) as Hn.
  destruct (Np.ncols train_x / num_steps) as [|n]; [lia|].
  cbn [seq map]. unfold enumerate_from. cbn [imap for_each].
  by rewrite train_batch_save_every_0.
Qed.

(** An epoch over training data too narrow for one window makes no
    step: it only resets the state and the running loss. *)
Lemma train_epoch_no_window save_every_n n_batches iterations e s :
  0 < num_steps -> Np.ncols train_x < num_steps ->
  train_epoch model train_x train_y val_x val_y num_steps lstm_size
              save_every_n n_batches iterations e s
  = Ok (Session (s_params s) (initial_state model) 0%Qc
                (s_events s) (s_saved s)).
Proof.
  intros Hpos Hcols. unfold train_epoch.
  rewrite gen_drain_get_batch by done. bind_ok.
  by rewrite Nat.div_small by done.
Qed.

Lemma train_epochs_no_window save_every_n n_batches iterations es s :
  0 < num_steps -> Np.ncols train_x < num_steps ->
  exists s',
    for_each es s
      (train_epoch model train_x train_y val_x val_y num_steps lstm_size
                   save_every_n n_batches iterations) = Ok s' /\
    s_params s' = s_params s /\ s_events s' = s_events s /\
    s_saved s' = s_saved s.
Proof.
  intros Hpos Hcols. revert s.
  induction es as [|e es IH]; intros s; cbn [for_each]; [by eexists|].
  rewrite train_epoch_no_window by done. bind_ok.
  destruct (IH (Session (s_params s) (initial_state model) 0%Qc
                        (s_events s) (s_saved s)))
    as (s' & -> & Hp & He & Hs).
  by exists s'.
Qed.

(** With [save_every_n = 0] and windows of at least one column, the loop
    raises [ZeroDivisionError], from [iteration % save_every_n], whenever
    it has a training step to make: at least one epoch and training data
    at least one window wide.  Otherwise it returns, having made no step
    and written no checkpoint. *)
Theorem train_save_every_0 (init_params : Params) :
  0 < num_steps ->
  (0 < epochs /\ num_steps <= Np.ncols train_x ->
   train model train_x train_y val_x val_y num_steps lstm_size epochs 0
         init_params = Raise ZeroDivisionError) /\
  (epochs = 0 \/ Np.ncols train_x < num_steps ->
   exists s,
     train model train_x train_y val_x val_y num_steps lstm_size epochs 0
           init_params = Ok s /\
     s_params s = init_params /\ s_events s = [] /\ s_saved s = []).
Proof.
  intros Hpos. split.
  - intros [Hep Hcols]. unfold train, Py.int_div.
    rewrite decide_False by lia. bind_ok. cbv zeta.
    destruct epochs as [|epochs']; [lia|]. cbn [seq for_each].
    by rewrite train_epoch_save_every_0.
  - intros Hnone. unfold train, Py.int_div.
    rewrite decide_False by lia. bind_ok. cbv zeta.
    destruct Hnone as [->|Hcols]; [by eexists|].
    destruct (train_epochs_no_window 0
                (Np.ncols train_x / num_steps)
                (Np.ncols train_x / num_steps * epochs) (seq 0 epochs)
                (Session init_params (initial_state model) 0%Qc [] []))
      as (s' & -> & Hp & He & Hs); [done..|].
    by exists s'.
Qed.

End TrainingSaveNever.

Lemma train_save_every_0_witness :
  train (counting_graph 3) (Np.Matrix 1 2 [[0; 1]]) (Np.Matrix 1 2 [[1; 2]])
        (Np.Matrix 1 0 [[]]) (Np.Matrix 1 0 [[]]) 1 512 1 0 tt
  = Raise ZeroDivisionError.
Proof.
  apply train_save_every_0.
  - lia.
  - simpl. lia.
Defined.

(** ** [pick_top_n] *)

Section PickTopNMore.
Variable argsort : list Qc -> list nat.
Implicit Types (h : heap) (pv q : list Qc) (preds : loc).
Local Open Scope Qc_scope.

Lemma random_choice_inv (a : nat) q u c :
  NpNum.random_choice a q u = Ok c ->
  a <> 0%nat /\ length q = a /\ Forall (fun x => 0 <= x) q /\ NpNum.sum q = 1.
Proof.
  unfold NpNum.random_choice. intros Hc.
  destruct (decide (a = 0%nat)); [discriminate|].
  destruct (decide (length q = a)); [|discriminate].
  destruct (decide (Forall (fun x => 0 <= x) q)); [|discriminate].
  destruct (decide (NpNum.sum q = 1)); [|discriminate]. done.
Qed.

(** Whatever array it is given, [pick_top_n] never returns an index that
    was cut or whose entry is zero, and it returns at all only if the
    array has [vocab_size] entries; with [top_n = 1] it returns the index
    [argsort] ranks last, whatever the variate (greedy decoding). *)
Theorem pick_top_n_returns_kept preds (vocab_size top_n : nat) u h pv c h' :
  h !! preds = Some pv -> is_argsort pv (argsort pv) ->
  0 <= u -> u < 1 ->
  pick_top_n argsort preds vocab_size top_n u h = Ok (c, h') ->
  length pv = vocab_size /\
  c ∈ Py.slice_from (- Z.of_nat top_n) (argsort pv) /\
  item pv c <> 0 /\
  (top_n = 1%nat -> last (argsort pv) = Some c).
Proof.
  intros Hh Hsort Hu0 Hu1 Hrun.
  pose proof (pick_top_n_Ok_length argsort _ _ _ _ _ _ _ Hh Hrun) as Hlen1.
  rewrite (pick_top_n_run argsort preds vocab_size top_n u h pv Hh Hsort
             Hlen1) in Hrun.
  destruct (truncated_lookup argsort pv top_n Hsort)
    as (Hlen' & Hzero & Hkeep & _).
  destruct (argsort_cut pv (argsort pv) top_n Hsort)
    as (_ & _ & _ & _ & Hbound & _ & Hsize & _).
  set (top := Py.slice_from (- Z.of_nat top_n) (argsort pv)) in *.
  set (pv' := foldl (fun a i => <[i:=0]> a) pv
                (Py.slice_to (- Z.of_nat top_n) (argsort pv))) in *.
  set (q := map (fun x => x / NpNum.sum pv') pv') in *.
  destruct (NpNum.random_choice vocab_size q u) as [c'|] eqn:Ec;
    [|discriminate].
  bind_ok in Hrun. injection Hrun as -> _.
  destruct (random_choice_inv _ _ _ _ Ec) as (Hv & Hq_len & Hq_nn & Hq_sum).
  destruct (random_choice_Ok vocab_size q u) as (c2 & x & Hc2 & Hqc & Hx);
    [lia|done..|].
  rewrite Ec in Hc2. injection Hc2 as <-.
  assert (Hlen : length pv = vocab_size)
    by (subst q; rewrite length_map, Hlen' in Hq_len; done).
  assert (Hc_lt : (c < length pv)%nat)
    by (rewrite Hlen, <- Hq_len; by eapply lookup_lt_Some).
  assert (Hnz : forall y, pv' !! c = Some y -> y <> 0).
  { intros y Hy ->. subst q. rewrite list_lookup_fmap, Hy in Hqc.
    simpl in Hqc. injection Hqc as <-. unfold Qcdiv in Hx.
    rewrite Qcmult_0_l in Hx. by apply Qclt_not_le in Hx. }
  assert (Hc_top : c ∈ top).
  { destruct (decide (c ∈ top)) as [|Hn]; [done|]. exfalso.
    apply (Hnz 0); [by apply Hzero|done]. }
  split_and!; [done|done| |].
  - apply Hnz. rewrite Hkeep by done. by apply lookup_item.
  - intros ->.
    assert (Htop : length top = 1%nat) by (apply Hsize; lia).
    destruct top as [|t [|? ?]] eqn:Et; [done| |done].
    apply list_elem_of_singleton in Hc_top as ->.
    rewrite <- (slice_to_from (- Z.of_nat 1) (argsort pv)).
    fold top. rewrite Et. apply last_snoc.
Qed.

(** With [top_n = 0] nothing is cut, no more than with [top_n] at or
    above the number of entries: [argsort(p)[:-0]] is the empty slice.
    The caller's array is left as it was and the draw is made from the
    whole input, normalised. *)
Theorem pick_top_n_keeps_all preds (vocab_size top_n : nat) u h pv c h' :
  h !! preds = Some pv -> is_argsort pv (argsort pv) ->
  (top_n = 0 \/ length pv <= top_n)%nat ->
  pick_top_n argsort preds vocab_size top_n u h = Ok (c, h') ->
  h' !! preds = Some pv /\
  NpNum.random_choice vocab_size (map (fun x => x / NpNum.sum pv) pv) u
  = Ok c /\
  exists ptr, ptr <> preds /\
    h' !! ptr = Some (map (fun x => x / NpNum.sum pv) pv).
Proof.
  intros Hh Hsort Hn Hrun.
  pose proof (pick_top_n_Ok_length argsort _ _ _ _ _ _ _ Hh Hrun) as Hlen1.
  rewrite (pick_top_n_run argsort preds vocab_size top_n u h pv Hh Hsort
             Hlen1) in Hrun.
  assert (Hidx : length (argsort pv) = length pv).
  { destruct Hsort as [Hperm _]. by rewrite Hperm, length_seq. }
  rewrite slice_to_neg_nil in Hrun by (rewrite Hidx; done).
  cbn [foldl] in Hrun.
  destruct (NpNum.random_choice _ _ _) as [c'|] eqn:Ec; [|discriminate].
  bind_ok in Hrun. injection Hrun as -> <-.
  assert (Hfresh : fresh (dom (<[preds:=pv]> h)) <> preds).
  { intros Heq.
    pose proof (is_fresh (dom (<[preds:=pv]> h))) as Hf.
    rewrite Heq in Hf. apply Hf, elem_of_dom.
    rewrite lookup_insert_eq. eauto. }
  split_and!.
  - rewrite lookup_insert_ne by done. apply lookup_insert_eq.
  - done.
  - eexists. split; [exact Hfresh|]. apply lookup_insert_eq.
Qed.

(** An array whose length is not [vocab_size] makes the call raise:
    [IndexError] at the item assignment when it has one entry,
    [ValueError] at the draw otherwise. *)
Lemma pick_top_n_length_mismatch preds (vocab_size top_n : nat) u h pv :
  h !! preds = Some pv -> is_argsort pv (argsort pv) ->
  length pv <> vocab_size ->
  pick_top_n argsort preds vocab_size top_n u h
  = Raise (if decide (length pv = 1%nat) then IndexError else ValueError).
Proof.
  intros Hh Hsort Hne.
  destruct (decide (length pv = 1%nat)) as [Hlen1|Hlen1];
    [by apply pick_top_n_scalar with pv|].
  rewrite (pick_top_n_run argsort preds vocab_size top_n u h pv Hh Hsort
             Hlen1).
  unfold NpNum.random_choice.
  destruct (decide (vocab_size = 0%nat)); [done|].
  rewrite decide_False; [done|].
  by rewrite length_map, set_items_length.
Qed.

End PickTopNMore.

Lemma pick_top_n_returns_kept_witness :
  let pv := [Q2Qc (1 # 10); Q2Qc (4 # 10); Q2Qc (2 # 10); Q2Qc (3 # 10)] in
  let h : heap := {[ 0 := pv ]} in
  match pick_top_n insertion_argsort 0 4 1 (Q2Qc (9 # 10)) h with
  | Ok (c, h') => last (insertion_argsort pv) = Some c
  | Raise _ => False
  end.
Proof.
  intros pv h.
  destruct (pick_top_n insertion_argsort 0 4 1 (Q2Qc (9 # 10)) h)
    as [[c h']|e] eqn:E.
  - destruct (pick_top_n_returns_kept insertion_argsort 0 4 1
                (Q2Qc (9 # 10)) h pv c h') as (_ & _ & _ & Hlast).
    + reflexivity.
    + apply insertion_argsort_spec.
    + by vm_compute.
    + by vm_compute.
    + exact E.
    + apply Hlast. reflexivity.
  - vm_compute in E. discriminate.
Defined.

Lemma pick_top_n_keeps_all_witness :
  let pv := [Q2Qc (1 # 10); Q2Qc (4 # 10); Q2Qc (2 # 10); Q2Qc (3 # 10)] in
  let h : heap := {[ 0 := pv ]} in
  match pick_top_n insertion_argsort 0 4 0 (Q2Qc (6 # 10)) h with
  | Ok (c, h') => h' !! 0 = Some pv
  | Raise _ => False
  end.
Proof.
  intros pv h.
  destruct (pick_top_n insertion_argsort 0 4 0 (Q2Qc (6 # 10)) h)
    as [[c h']|e] eqn:E.
  - refine (proj1 (pick_top_n_keeps_all insertion_argsort 0 4 0
                     (Q2Qc (6 # 10)) h pv c h' _ _ _ E)).
    + reflexivity.
    + apply insertion_argsort_spec.
    + left. reflexivity.
  - vm_compute in E. discriminate.
Defined.

(** ** The sampler *)

Lemma sample_output_witness :
  let voc := vocabulary_of "The Far side" in
  let rng := fun k => Q2Qc (Z.of_nat k # 4) in
  match sample voc (fun V _ => counting_graph V) (fun _ : unit => Ok tt)
               insertion_argsort tt 2 512 10 "The" rng with
  | Ok out =>
      exists gen,
        out = ("Far" ++ string_of_list_ascii gen)%string /\ length gen = 3
  | Raise _ => False
  end.
Proof.
  intros voc rng.
  destruct (sample voc (fun V _ => counting_graph V) (fun _ : unit => Ok tt)
                   insertion_argsort tt 2 512 10 "The" rng) as [out|e] eqn:E.
  - exact (sample_output voc _ _ _ tt 2 512 10 "The" rng out E).
  - vm_compute in E. discriminate.
Defined.

Section SampleMore.
Context {State Params Ckpt : Type}.
Variable voc : vocabulary ascii.
Variable build_rnn : nat -> nat -> graph State Params.
Variable restore : Ckpt -> result Params.
Variable argsort : list Qc -> list nat.

(** Unless ['F'], ['a'] and ['r'] are all in the vocabulary, [sample]
    raises [KeyError] once the checkpoint is restored, whatever [prime]
    it is called with. *)
Theorem sample_needs_far checkpoint params n_samples lstm_size vocab_size
    prime rng :
  restore checkpoint = Ok params ->
  (exists c, c ∈ ["F"; "a"; "r"]%char /\ vocab_to_int voc !! c = None) ->
  sample voc build_rnn restore argsort checkpoint n_samples lstm_size
         vocab_size prime rng = Raise KeyError.
Proof.
  intros Hres (c & Hc & Hmiss). unfold sample. rewrite Hres. bind_ok.
  cbv zeta. cbn [list_ascii_of_string for_each]. unfold dict_get.
  destruct (vocab_to_int voc !! "F"%char) as [iF|] eqn:EF; [|done]. bind_ok.
  destruct (vocab_to_int voc !! "a"%char) as [ia|] eqn:Ea; [|done]. bind_ok.
  destruct (vocab_to_int voc !! "r"%char) as [ir|] eqn:Er; [|done]. exfalso.
  repeat (apply elem_of_cons in Hc as [->|Hc]; [congruence|]).
  by apply elem_of_nil in Hc.
Qed.

Lemma feed_symbol_preds (model : graph State Params) (params : Params) i
    (s : sampler (State:=State)) :
  exists l pv st,
    run_preds model params (sm_new_state s) i = (pv, st) /\
    sm_preds (feed_symbol model params i s) = Some l /\
    sm_heap (feed_symbol model params i s) !! l = Some pv.
Proof.
  unfold feed_symbol, heap_alloc.
  destruct (run_preds model params (sm_new_state s) i) as [pv st].
  eexists _, _, _. split; [reflexivity|]. simpl.
  split; [reflexivity|]. apply lookup_insert_eq.
Qed.

Lemma pick_and_append_mismatch (s : sampler (State:=State)) l pv u :
  sm_preds s = Some l -> sm_heap s !! l = Some pv ->
  is_argsort pv (argsort pv) -> length pv <> size (vocab voc) ->
  pick_and_append voc argsort u s
  = Raise (if decide (length pv = 1) then IndexError else ValueError).
Proof.
  intros Hl Hheap Hsort Hne. unfold pick_and_append.
  rewrite Hl. cbn [from_option]. bind_ok.
  by rewrite (pick_top_n_length_mismatch argsort l _ 5 _ _ pv Hheap Hsort).
Qed.

(** The graph predicts over [vocab_size] classes, the draw is made over
    [len(vocab)] symbols: when the two differ, [sample] does not return.
    It raises [ValueError], from [np.random.choice], unless
    [vocab_size = 1]: then the squeezed predictions are 0-dimensional
    and it raises [IndexError], from the item assignment of
    [pick_top_n]. *)
Theorem sample_vocab_size_mismatch checkpoint params n_samples lstm_size
    vocab_size prime rng :
  restore checkpoint = Ok params ->
  (forall c, c ∈ ["F"; "a"; "r"]%char -> is_Some (vocab_to_int voc !! c)) ->
  (forall p, is_argsort p (argsort p)) ->
  (forall st i,
     length (run_preds (build_rnn vocab_size lstm_size) params st i).1
     = vocab_size) ->
  vocab_size <> size (vocab voc) ->
  sample voc build_rnn restore argsort checkpoint n_samples lstm_size
         vocab_size prime rng
  = Raise (if decide (vocab_size = 1) then IndexError else ValueError).
Proof.
  intros Hres Hfar Hsort Hwidth Hne. unfold sample. rewrite Hres. bind_ok.
  cbv zeta. cbn [list_ascii_of_string for_each]. unfold dict_get.
  destruct (Hfar "F"%char) as [iF ->]; [set_solver|]. bind_ok.
  destruct (Hfar "a"%char) as [ia ->]; [set_solver|]. bind_ok.
  destruct (Hfar "r"%char) as [ir ->]; [set_solver|].
  repeat (progress bind_ok).
  match goal with
  | |- context [pick_and_append _ _ _ (feed_symbol ?m ?p ?i ?s)] =>
      destruct (feed_symbol_preds m p i s) as (l & pv & st & Hpv & Hl & Hheap);
      specialize (Hwidth (sm_new_state s) i)
  end.
  rewrite Hpv in Hwidth. simpl in Hwidth.
  rewrite (pick_and_append_mismatch _ l pv) by (done || congruence).
  rewrite Hwidth. reflexivity.
Qed.

End SampleMore.

Lemma sample_needs_far_witness :
  sample (vocabulary_of "the side") (fun V _ => counting_graph V)
         (fun _ : unit => Ok tt) insertion_argsort tt 2 512 7 "the"
         (fun k => Q2Qc (Z.of_nat k # 4))
  = Raise KeyError.
Proof.
  apply (sample_needs_far (vocabulary_of "the side") _ _ _ tt tt).
  - reflexivity.
  - exists "F"%char. split; [set_solver|]. by vm_compute.
Defined.

Lemma sample_vocab_size_mismatch_witness :
  sample (vocabulary_of "The Far side") (fun V _ => counting_graph V)
         (fun _ : unit => Ok tt) insertion_argsort tt 2 512 3 "The"
         (fun k => Q2Qc (Z.of_nat k # 4))
  = Raise ValueError /\
  sample (vocabulary_of "The Far side") (fun V _ => counting_graph V)
         (fun _ : unit => Ok tt) insertion_argsort tt 2 512 1 "The"
         (fun k => Q2Qc (Z.of_nat k # 4))
  = Raise IndexError.
Proof.
  split.
  - apply (sample_vocab_size_mismatch (vocabulary_of "The Far side") _ _ _
             tt tt).
    + reflexivity.
    + intros c Hc.
      repeat (apply elem_of_cons in Hc as [->|Hc]; [vm_compute; eauto|]).
      by apply elem_of_nil in Hc.
    + apply insertion_argsort_spec.
    + intros st i. reflexivity.
    + by vm_compute.
  - apply (sample_vocab_size_mismatch (vocabulary_of "The Far side") _ _ _
             tt tt).
    + reflexivity.
    + intros c Hc.
      repeat (apply elem_of_cons in Hc as [->|Hc]; [vm_compute; eauto|]).
      by apply elem_of_nil in Hc.
    + apply insertion_argsort_spec.
    + intros st i. reflexivity.
    + by vm_compute.
Defined.

(** ** The token stream *)

Section VocabularyMore.
Context `{Countable Sym}.
Implicit Types (text : list Sym).

(** The token stream [chars] has one id per symbol of the corpus, each
    below [V]; two positions hold the same id exactly when they hold the
    same symbol; and there are no more ids than symbols in the corpus. *)
Theorem vocabulary_tokens text :
  exists v,
    build_vocabulary text = Ok v /\
    length (chars v) = length text /\
    Forall (fun a => a < size (vocab v)) (chars v) /\
    size (vocab v) <= length text /\
    forall i j s t a b,
      text !! i = Some s -> text !! j = Some t ->
      chars v !! i = Some a -> chars v !! j = Some b ->
      (a = b <-> s = t).
Proof.
  destruct (build_vocabulary_Ok text) as (cs & Hb & Hcs).
  eexists. split; [exact Hb|]. cbn [vocab chars].
  set (X := list_to_set text : gset Sym) in *.
  split_and!.
  - symmetry. by eapply Forall2_length.
  - apply Forall_lookup. intros k a Ha.
    destruct (Forall2_lookup_r _ _ _ _ _ Hcs Ha) as (s & _ & Hs).
    by eapply lookup_lt_Some.
  - apply submseteq_length, NoDup_submseteq; [apply NoDup_elements|].
    intros s Hs. by apply elem_of_elements, elem_of_list_to_set in Hs.
  - intros i j s t a b Hi Hj Ha Hb'.
    pose proof (Forall2_lookup_lr _ _ _ _ _ _ Hcs Hi Ha) as Hs.
    pose proof (Forall2_lookup_lr _ _ _ _ _ _ Hcs Hj Hb') as Ht.
    simpl in Hs, Ht. split.
    + intros ->. congruence.
    + intros ->. exact (NoDup_lookup _ _ _ _ (NoDup_elements X) Hs Ht).
Qed.

End VocabularyMore.
